(** * Dirty-diff tracking and compare coordination

    A shallow embedding of
    - [CompareService] / [CompareEditorContribution]
      (packages/editor/src/browser/diff/compare.ts), and
    - [DirtyDiffModel] (the SCM dirty-diff model),
    with the properties of their specification stated and proved over it.

    Promises are embedded by their settlement: a promise that fulfils with
    [a] is [Fulfilled a], one that rejects is [Rejected]; [then] callbacks
    are ordinary functions applied to the fulfilment value, and code that
    runs "later" (promise reactions) is kept in an explicit queue. *)

From stdpp Require Import gmap strings list.
From Stdlib Require Import ZArith Lia.

Open Scope Z_scope.

(** ** Promises by settlement *)

Inductive Settled (A : Type) : Type :=
| Fulfilled (a : A)
| Rejected.
Arguments Fulfilled {A} a.
Arguments Rejected {A}.

(** [p.then(f)] where [f] itself returns a promise. *)
Definition then_ {A B : Type} (p : Settled A) (f : A -> Settled B) : Settled B :=
  match p with
  | Fulfilled a => f a
  | Rejected => Rejected
  end.

(** ** CompareService *)

Module Compare.

Inductive CompareResult : Type := accept | revert.

#[global] Instance CompareResult_eq_dec : EqDecision CompareResult.
Proof. solve_decision. Defined.

(** A resource identifier, by its [toString()] form. *)
Abbreviation URI := string.

(** Modelled from the spec: [URI.from] and [URI.stringifyQuery] are not part
    of the sources at hand.  The synthetic identifier is "an opaque string
    built deterministically from (originalRef, modifiedRef, label, a fixed
    comparing marker)"; the query keys are listed in the order of the object
    literal in [compare]. *)
Definition stringifyQuery (q : list (string * string)) : string :=
  String.concat "&" (map (fun kv => (kv.1 +:+ "=" +:+ kv.2)%string) q).

Definition compareUri (original modified : URI) (name : string) : string :=
  ("diff:?" +:+ stringifyQuery
     [("name", name); ("original", original); ("modified", modified);
      ("comparing", "true")])%string.

(** Commands handed to [commandService.executeCommand]. *)
Inductive Command : Type :=
| OPEN_RESOURCE (uri : string)
| CLOSE_ALL (uri : string).

#[global] Instance Command_eq_dec : EqDecision Command.
Proof. solve_decision. Defined.

(** Modelled from the spec: [Deferred] is not part of the sources at hand; it
    is "a single-settlement future/result slot".  [settled = None] is the
    pending state.  [reactions] are the [then] callbacks registered on its
    promise; the only callback [compare] registers is the clean-up closure,
    represented by the [compareUri] string it captures. *)
Record Deferred : Type := mkDeferred {
  settled : option CompareResult;
  reactions : list string;
}.

(** Object identity of a [Deferred] (and of its [promise]). *)
Abbreviation Handle := nat.

Record CompareService : Type := mkService {
  comparing : gmap string Handle;
  (** the [Deferred] objects allocated so far, by handle *)
  deferreds : list Deferred;
  (** promise reactions queued by a settlement and not run yet *)
  microtasks : list string;
  (** trace of [commandService.executeCommand] calls *)
  executed : list Command;
}.

Definition empty_service : CompareService :=
  mkService ∅ [] [] [].

Definition executeCommand (c : Command) (s : CompareService) : CompareService :=
  mkService (comparing s) (deferreds s) (microtasks s) (executed s ++ [c]).

(** [new Deferred()] followed by [deferred.promise.then(cleanup)]. *)
Definition new_deferred (key : string) (s : CompareService) : Handle * CompareService :=
  (length (deferreds s),
   mkService (comparing s) (deferreds s ++ [mkDeferred None [key]])
             (microtasks s) (executed s)).

Definition comparing_set (key : string) (h : Handle) (s : CompareService) : CompareService :=
  mkService (<[key := h]> (comparing s)) (deferreds s) (microtasks s) (executed s).

Definition comparing_delete (key : string) (s : CompareService) : CompareService :=
  mkService (delete key (comparing s)) (deferreds s) (microtasks s) (executed s).

(** [compare(original, modified, name)]: the returned value is the promise of
    [this.comparing.get(key)]. *)
Definition compare (original modified : URI) (name : string) (s : CompareService)
  : option Handle * CompareService :=
  let key := compareUri original modified name in
  let s1 :=
    match comparing s !! key with
    | None =>
        let '(h, s') := new_deferred key s in
        comparing_set key h s'
    | Some _ => s
    end in
  let s2 := executeCommand (OPEN_RESOURCE key) s1 in
  (comparing s2 !! key, s2).

(** [deferred.resolve(v)]: settles a pending deferred and queues its
    reactions; a settled one stays as it is. *)
Definition resolve (h : Handle) (v : CompareResult) (s : CompareService) : CompareService :=
  match deferreds s !! h with
  | Some d =>
      match settled d with
      | None =>
          mkService (comparing s)
                    (<[h := mkDeferred (Some v) (reactions d)]> (deferreds s))
                    (microtasks s ++ reactions d) (executed s)
      | Some _ => s
      end
  | None => s
  end.

(** The clean-up closure registered in [compare]. *)
Definition cleanup (key : string) (s : CompareService) : CompareService :=
  executeCommand (CLOSE_ALL key) (comparing_delete key s).

(** Run the queued promise reactions, oldest first. *)
Definition run_microtasks (s : CompareService) : CompareService :=
  foldl (fun acc key => cleanup key acc)
        (mkService (comparing s) (deferreds s) [] (executed s))
        (microtasks s).

(** The [execute] handler shared by 'editor.diff.accept' and
    'editor.diff.revert'; [resource] is the optional command argument, given
    by [resource.uri.toString()]. *)
Definition diff_command (outcome : CompareResult) (resource : option string)
    (s : CompareService) : CompareService :=
  match resource with
  | None => s
  | Some uri =>
      match comparing s !! uri with
      | Some h => resolve h outcome s
      | None => s
      end
  end.

Definition editor_diff_accept := diff_command accept.
Definition editor_diff_revert := diff_command revert.

(** Outcome stored in the deferred [h], if it has one. *)
Definition outcome_of (h : Handle) (s : CompareService) : option CompareResult :=
  d ← deferreds s !! h; settled d.

Definition is_pending (h : Handle) (s : CompareService) : Prop :=
  ∃ d, deferreds s !! h = Some d ∧ settled d = None.

(** How often the UI-open command was issued for [key]. *)
Definition opens (key : string) (s : CompareService) : nat :=
  length (filter (λ c, c = OPEN_RESOURCE key) (executed s)).

(** [key] has a pending comparison created by [compare]. *)
Definition registered (key : string) (h : Handle) (s : CompareService) : Prop :=
  comparing s !! key = Some h ∧
  deferreds s !! h = Some (mkDeferred None [key]).

End Compare.

(** ** DirtyDiffModel *)

Module DirtyDiff.

Abbreviation Uri := string.

(** Modelled from the spec: the [IChange] declaration is not part of the
    sources at hand.  A ChangeSet record has an "original-side start/end
    line, modified-side start/end line, kind"; the source reads
    [modifiedStartLineNumber] directly. *)
Record IChange : Type := mkChange {
  originalStartLineNumber : Z;
  originalEndLineNumber : Z;
  modifiedStartLineNumber : Z;
  modifiedEndLineNumber : Z;
  kind : Z;
}.

(** Modelled from the spec: [ISplice] is not part of the sources at hand; a
    splice is "a minimal insert/remove/replace record" at a position of the
    old list. *)
Record ISplice (T : Type) : Type := mkSplice {
  start : nat;
  deleteCount : nat;
  toInsert : list T;
}.
Arguments mkSplice {T} _ _ _.
Arguments start {T} _.
Arguments deleteCount {T} _.
Arguments toInsert {T} _.

Section SortedDiff.
Context {T : Type} (compare : T -> T -> Z).

(** Records one splice; an empty one is dropped and one that continues the
    latest splice is merged into it.  [res] is kept latest-first. *)
Definition pushSplice (res : list (ISplice T)) (start deleteCount : nat)
    (toInsert : list T) : list (ISplice T) :=
  match deleteCount, toInsert with
  | O, [] => res
  | _, _ =>
      match res with
      | latest :: older =>
          if (DirtyDiff.start latest + DirtyDiff.deleteCount latest =? start)%nat
          then mkSplice (DirtyDiff.start latest)
                        (DirtyDiff.deleteCount latest + deleteCount)
                        (DirtyDiff.toInsert latest ++ toInsert) :: older
          else mkSplice start deleteCount toInsert :: res
      | [] => [mkSplice start deleteCount toInsert]
      end
  end.

(** The walk over both sorted lists: [before] and [after] are what is left
    of each, [beforeIdx] the position reached in the old list. *)
Fixpoint sortedDiff_walk (before : list T)
  : list T -> nat -> list (ISplice T) -> list (ISplice T) :=
  fix walk_after (after : list T) (beforeIdx : nat) (res : list (ISplice T))
      {struct after} : list (ISplice T) :=
    match before, after with
    | [], _ => pushSplice res beforeIdx 0 after
    | _ :: _, [] => pushSplice res beforeIdx (length before) []
    | b :: before', a :: after' =>
        let n := compare b a in
        if n =? 0 then sortedDiff_walk before' after' (S beforeIdx) res
        else if n <? 0 then
          sortedDiff_walk before' after (S beforeIdx) (pushSplice res beforeIdx 1 [])
        else walk_after after' beforeIdx (pushSplice res beforeIdx 0 [a])
    end.

(** Modelled from the spec: [sortedDiff] (core-common) is not part of the
    sources at hand.  It is the "stable-order list-diff (keyed by a total
    order ...) to produce the minimal splice notification": both lists are
    walked in step, elements that compare equal are kept, an old element
    that sorts before the new one is removed, a new element that sorts
    before the old one is inserted. *)
Definition sortedDiff (before after : list T) : list (ISplice T) :=
  rev (sortedDiff_walk before after 0%nat []).
End SortedDiff.

(** What the tracker observes of a monaco text model: [uri],
    [isDisposed()] and [getValueLength()]. *)
Record ITextModel : Type := mkModel {
  uri : Uri;
  isDisposed : bool;
  getValueLength : Z;
}.

(** A repository's provider, by its answer to [getOriginalResource(uri)]. *)
Record ISCMRepository : Type := mkRepository {
  repoId : nat;
  provider_getOriginalResource : Uri -> Settled (option Uri);
}.

(** Modelled from the spec: [first] (core-common async) is not part of the
    sources at hand.  The providers are queried "in registration order ...;
    first non-empty answer wins"; with no non-empty answer the result is
    empty.  A factory whose promise rejects rejects the whole. *)
Fixpoint first {T : Type} (promiseFactories : list (unit -> Settled (option T)))
  : Settled (option T) :=
  match promiseFactories with
  | [] => Fulfilled None
  | factory :: rest =>
      then_ (factory tt) (fun result =>
        match result with
        | Some t => Fulfilled (Some t)
        | None => first rest
        end)
  end.

(** *** The coalescing delay gate *)

Inductive GatePhase : Type :=
| Idle
| Scheduled (deadline : Z)
| Running
| RunningRequeued.

(** Modelled from the spec: [ThrottledDelayer] (core-common) is not part of
    the sources at hand.  It is the "explicit small state machine {idle,
    scheduled, running, running+requeued}"; [runs] counts the runs started so
    far. *)
Record ThrottledDelayer : Type := mkDelayer {
  defaultDelay : Z;
  phase : GatePhase;
  runs : nat;
}.

Definition new_ThrottledDelayer (delay : Z) : ThrottledDelayer :=
  mkDelayer delay Idle 0.

(** "If a recompute is already scheduled and not yet started, the request is
    absorbed (no new timer); if one is currently running, the request queues
    exactly one follow-up run". *)
Definition trigger (now : Z) (g : ThrottledDelayer) : ThrottledDelayer :=
  match phase g with
  | Idle => mkDelayer (defaultDelay g) (Scheduled (now + defaultDelay g)) (runs g)
  | Scheduled _ => g
  | Running => mkDelayer (defaultDelay g) RunningRequeued (runs g)
  | RunningRequeued => g
  end.

(** The clock reaches [now]: a timer that is due starts the run. *)
Definition timer (now : Z) (g : ThrottledDelayer) : ThrottledDelayer :=
  match phase g with
  | Scheduled deadline =>
      if deadline <=? now then mkDelayer (defaultDelay g) Running (S (runs g)) else g
  | _ => g
  end.

(** The current run settles: a queued follow-up starts "immediately after
    the current one finishes". *)
Definition finished (g : ThrottledDelayer) : ThrottledDelayer :=
  match phase g with
  | Running => mkDelayer (defaultDelay g) Idle (runs g)
  | RunningRequeued => mkDelayer (defaultDelay g) Running (S (runs g))
  | _ => g
  end.

(** [cancel()]: "the delay gate's pending timer [is] suppressed". *)
Definition cancel (g : ThrottledDelayer) : ThrottledDelayer :=
  match phase g with
  | Scheduled _ => mkDelayer (defaultDelay g) Idle (runs g)
  | _ => g
  end.

Inductive GateEvent : Type :=
| Trigger (now : Z)
| Timer (now : Z)
| Finished.

Definition gate_step (g : ThrottledDelayer) (e : GateEvent) : ThrottledDelayer :=
  match e with
  | Trigger now => trigger now g
  | Timer now => timer now g
  | Finished => finished g
  end.

Definition gate_run (es : list GateEvent) (g : ThrottledDelayer) : ThrottledDelayer :=
  foldl gate_step g es.


(** *** The tracker *)

(** What a disposable held by the tracker stands for. *)
Inductive Subscription : Type :=
| EditorContentChanged
| RepositoryAdded
| ProviderChanged (repo : nat)
| RepositoryRemoved (repo : nat)
| OriginalContentChanged
| OriginalModelReference.

Record DirtyDiffModel : Type := mkTracker {
  _originalModel : option ITextModel;
  _editorModel : option ITextModel;
  diffDelayer : option ThrottledDelayer;
  (** the resolution in flight, by its eventual settlement *)
  _originalURIPromise : option (Settled (option Uri));
  (** one disposable store per known repository *)
  repositoryDisposables : list (list Subscription);
  originalModelDisposables : list Subscription;
  (** what [addDispose] registered with the [Disposable] base class *)
  disposables : list Subscription;
  (** payloads fired on [_onDidChange], oldest first *)
  _onDidChange : list (list (ISplice IChange));
  _changes : list IChange;
  (** the gate the tracker has let go of in [dispose()], as [cancel()] left
      it; its timer, if it had one pending, is still known to the clock *)
  released_delayer : option ThrottledDelayer;
}.

Definition changes (s : DirtyDiffModel) : list IChange := _changes s.

Definition set_originalModel (m : option ITextModel) (s : DirtyDiffModel) : DirtyDiffModel :=
  mkTracker m (_editorModel s) (diffDelayer s) (_originalURIPromise s)
            (repositoryDisposables s) (originalModelDisposables s) (disposables s)
            (_onDidChange s) (_changes s) (released_delayer s).

Definition set_diffDelayer (g : option ThrottledDelayer) (s : DirtyDiffModel) : DirtyDiffModel :=
  mkTracker (_originalModel s) (_editorModel s) g (_originalURIPromise s)
            (repositoryDisposables s) (originalModelDisposables s) (disposables s)
            (_onDidChange s) (_changes s) (released_delayer s).

Definition set_originalURIPromise (p : option (Settled (option Uri))) (s : DirtyDiffModel)
  : DirtyDiffModel :=
  mkTracker (_originalModel s) (_editorModel s) (diffDelayer s) p
            (repositoryDisposables s) (originalModelDisposables s) (disposables s)
            (_onDidChange s) (_changes s) (released_delayer s).

Definition set_repositoryDisposables (r : list (list Subscription)) (s : DirtyDiffModel)
  : DirtyDiffModel :=
  mkTracker (_originalModel s) (_editorModel s) (diffDelayer s) (_originalURIPromise s)
            r (originalModelDisposables s) (disposables s)
            (_onDidChange s) (_changes s) (released_delayer s).

Definition set_originalModelDisposables (d : list Subscription) (s : DirtyDiffModel)
  : DirtyDiffModel :=
  mkTracker (_originalModel s) (_editorModel s) (diffDelayer s) (_originalURIPromise s)
            (repositoryDisposables s) d (disposables s)
            (_onDidChange s) (_changes s) (released_delayer s).

Definition addDispose (d : Subscription) (s : DirtyDiffModel) : DirtyDiffModel :=
  mkTracker (_originalModel s) (_editorModel s) (diffDelayer s) (_originalURIPromise s)
            (repositoryDisposables s) (originalModelDisposables s) (disposables s ++ [d])
            (_onDidChange s) (_changes s) (released_delayer s).

Definition set_changes (c : list IChange) (s : DirtyDiffModel) : DirtyDiffModel :=
  mkTracker (_originalModel s) (_editorModel s) (diffDelayer s) (_originalURIPromise s)
            (repositoryDisposables s) (originalModelDisposables s) (disposables s)
            (_onDidChange s) c (released_delayer s).

(** [this._onDidChange.fire(diff)] *)
Definition fire (diff : list (ISplice IChange)) (s : DirtyDiffModel) : DirtyDiffModel :=
  mkTracker (_originalModel s) (_editorModel s) (diffDelayer s) (_originalURIPromise s)
            (repositoryDisposables s) (originalModelDisposables s) (disposables s)
            (_onDidChange s ++ [diff]) (_changes s) (released_delayer s).

(** All subscriptions the tracker still holds. *)
Definition subscriptions (s : DirtyDiffModel) : list Subscription :=
  disposables s ++ originalModelDisposables s ++ concat (repositoryDisposables s).

(** The delay window given to the gate in the constructor. *)
Definition DIFF_DELAY : Z := 200.

(** The synchronous part of [triggerDiff]: without a gate nothing is
    scheduled, otherwise the gate takes the request at time [now]. *)
Definition triggerDiff (now : Z) (s : DirtyDiffModel) : DirtyDiffModel :=
  match diffDelayer s with
  | None => s
  | Some g => set_diffDelayer (Some (trigger now g)) s
  end.

Definition onDidAddRepository (now : Z) (repository : ISCMRepository)
    (s : DirtyDiffModel) : DirtyDiffModel :=
  let store := [ProviderChanged (repoId repository); RepositoryRemoved (repoId repository)] in
  triggerDiff now (set_repositoryDisposables (repositoryDisposables s ++ [store]) s).

(** The constructor, run at time [now] with the repositories known to the
    SCM service. *)
Definition constructor (editorModel : ITextModel) (repositories : list ISCMRepository)
    (now : Z) : DirtyDiffModel :=
  let s0 := mkTracker None (Some editorModel) (Some (new_ThrottledDelayer DIFF_DELAY))
                      None [] [] [] [] [] None in
  let s1 := addDispose EditorContentChanged s0 in
  let s2 := addDispose RepositoryAdded s1 in
  let s3 := foldl (fun s r => onDidAddRepository now r s) s2 repositories in
  let s4 := triggerDiff now s3 in
  set_originalModelDisposables [] s4.

(** [dispose()]: the base class releases what [addDispose] registered (the
    original-model store among it), then the fields are cleared; a gate is
    cancelled before the reference to it is dropped; and every repository
    store is disposed. *)
Definition dispose (s : DirtyDiffModel) : DirtyDiffModel :=
  mkTracker None None None (_originalURIPromise s) [] [] []
            (_onDidChange s) (_changes s)
            (match diffDelayer s with
             | Some g => Some (cancel g)
             | None => released_delayer s
             end).

(** What the tracker's gate does when the clock reaches [now]. *)
Definition timer_elapsed (now : Z) (s : DirtyDiffModel) : DirtyDiffModel :=
  match diffDelayer s with
  | None => s
  | Some g => set_diffDelayer (Some (timer now g)) s
  end.

(** What the tracker's gate does when the current run settles. *)
Definition run_settled (s : DirtyDiffModel) : DirtyDiffModel :=
  match diffDelayer s with
  | None => s
  | Some g => set_diffDelayer (Some (finished g)) s
  end.

Definition runs_started (s : DirtyDiffModel) : nat :=
  match diffDelayer s with
  | None => 0
  | Some g => runs g
  end.

Definition gate_phase (s : DirtyDiffModel) : option GatePhase :=
  phase <$> diffDelayer s.

(** A burst of [triggerDiff] calls at the given times. *)
Definition triggerDiff_burst (times : list Z) (s : DirtyDiffModel) : DirtyDiffModel :=
  foldl (fun acc now => triggerDiff now acc) s times.

(** *** The recompute pipeline *)

(** The collaborators of one recompute, by what they answer. *)
Record World : Type := mkWorld {
  repositories : list ISCMRepository;
  (** [documentModelManager.createModelReference(uri)], by the text model
      of the reference it yields *)
  createModelReference : Uri -> Settled (option ITextModel);
  canComputeDiff : Uri -> Uri -> bool;
  (** [editorWorkerService.computeDiff(original, modified, false)], by the
      [changes] of the result it yields *)
  computeDiff : Uri -> Uri -> Settled (option (list IChange));
}.

(** The calls during which the pipeline is suspended. *)
Inductive Suspension : Type :=
| InGetOriginalResource
| InCreateModelReference
| InComputeDiff.

#[global] Instance Suspension_eq_dec : EqDecision Suspension.
Proof. solve_decision. Defined.

(** Stateful asynchronous code: the settlement of the promise and the
    tracker it leaves behind. *)
Definition M (A : Type) : Type := DirtyDiffModel -> Settled A * DirtyDiffModel.

Definition ret {A : Type} (a : A) : M A := fun s => (Fulfilled a, s).

Definition bind {A B : Type} (m : M A) (f : A -> M B) : M B :=
  fun s =>
    match m s with
    | (Fulfilled a, s') => f a s'
    | (Rejected, s') => (Rejected, s')
    end.

(** [p.finally(f)] *)
Definition finally {A : Type} (m : M A) (f : DirtyDiffModel -> DirtyDiffModel) : M A :=
  fun s => let '(r, s') := m s in (r, f s').

(** Waiting for the promise [p]: when [detach] names this suspension,
    [dispose()] is called before [p] settles. *)
Definition await {A : Type} (detach : option Suspension) (here : Suspension)
    (p : Settled A) : M A :=
  fun s => (p, if bool_decide (detach = Some here) then dispose s else s).

Section Pipeline.
Variable compareChanges : IChange -> IChange -> Z.
Variable w : World.
Variable detach : option Suspension.

Definition getOriginalResource (s : DirtyDiffModel) : Settled (option Uri) :=
  match _editorModel s with
  | None => Fulfilled None
  | Some editorModel =>
      first (map (fun r (_ : unit) => provider_getOriginalResource r (uri editorModel))
                 (repositories w))
  end.

(** The callback on the model reference (in [getOriginalURIPromise]). *)
Definition onModelReference (originalUri : Uri) (docModelRef : option ITextModel)
  : M (option Uri) :=
  fun s =>
    match _editorModel s with
    | None => (Fulfilled None, s)
    | Some _ =>
        match docModelRef with
        | None => (Fulfilled None, s)
        | Some textEditorModel =>
            (Fulfilled (Some originalUri),
             set_originalModelDisposables
               [OriginalModelReference; OriginalContentChanged]
               (set_originalModel (Some textEditorModel) s))
        end
    end.

(** [this._originalModel && this._originalModel.uri.toString() ===
    originalUri.toString()] *)
Definition has_original (u : Uri) (s : DirtyDiffModel) : bool :=
  match _originalModel s with
  | Some om => bool_decide (uri om = u)
  | None => false
  end.

(** The callback on the resolved identifier (in [getOriginalURIPromise]). *)
Definition onOriginalResource (originalUri : option Uri) : M (option Uri) :=
  fun s =>
    match _editorModel s with
    | None => (Fulfilled None, s)
    | Some _ =>
        match originalUri with
        | None => (Fulfilled None, set_originalModel None s)
        | Some u =>
            if has_original u s
            then (Fulfilled (Some u), s)
            else bind (await detach InCreateModelReference (createModelReference w u))
                      (onModelReference u) s
        end
    end.

Definition clear_originalURIPromise : DirtyDiffModel -> DirtyDiffModel :=
  set_originalURIPromise None.

(** The promise is kept in [_originalURIPromise] while the resolution is in
    flight and handed out again to a caller arriving meanwhile; [finally]
    clears the field when it settles. *)
Definition getOriginalURIPromise : M (option Uri) :=
  fun s =>
    match _originalURIPromise s with
    | Some p => (p, s)
    | None =>
        finally (bind (await detach InGetOriginalResource (getOriginalResource s))
                      onOriginalResource)
                clear_originalURIPromise s
    end.

(** The callback of [diff] on the original identifier. *)
Definition onOriginalURI (originalURI : option Uri) : M (option (list IChange)) :=
  fun s =>
    match _editorModel s, originalURI with
    | Some editorModel, Some u =>
        if isDisposed editorModel then (Fulfilled (Some []), s)
        else if negb (canComputeDiff w u (uri editorModel)) then (Fulfilled (Some []), s)
        else await detach InComputeDiff (computeDiff w u (uri editorModel)) s
    | _, _ => (Fulfilled (Some []), s)
    end.

Definition diff : M (option (list IChange)) :=
  bind getOriginalURIPromise onOriginalURI.

(** What the settlement callback of [triggerDiff] publishes. *)
Definition published (originalModel : ITextModel) (changes : option (list IChange))
  : list IChange :=
  match changes with
  | None => []
  | Some c => if getValueLength originalModel =? 0 then [] else c
  end.

(** The settlement callback of [triggerDiff]. *)
Definition onChanges (changes : option (list IChange)) (s : DirtyDiffModel)
  : DirtyDiffModel :=
  match _editorModel s, _originalModel s with
  | Some editorModel, Some originalModel =>
      if isDisposed editorModel || isDisposed originalModel then s
      else
        let changes := published originalModel changes in
        let diff := sortedDiff compareChanges (_changes s) changes in
        let s' := set_changes changes s in
        if (0 <? length diff)%nat then fire diff s' else s'
  | _, _ => s
  end.

(** One run of the gate's task followed by the settlement callback. *)
Definition recompute : M unit :=
  bind diff (fun changes s => (Fulfilled tt, onChanges changes s)).

(** The rest of a run once the call it is suspended in has delivered. *)
Definition resume_getOriginalResource (originalUri : option Uri) : M unit :=
  bind (bind (finally (onOriginalResource originalUri) clear_originalURIPromise)
             onOriginalURI)
       (fun changes s => (Fulfilled tt, onChanges changes s)).

Definition resume_createModelReference (originalUri : Uri)
    (docModelRef : option ITextModel) : M unit :=
  bind (bind (finally (onModelReference originalUri docModelRef)
                      clear_originalURIPromise)
             onOriginalURI)
       (fun changes s => (Fulfilled tt, onChanges changes s)).

End Pipeline.

(** *** Navigation *)

Section Navigation.
(** [getModifiedEndLineNumber] (dirty-diff-util) is not part of the
    sources at hand; it is kept abstract. *)
Variable getModifiedEndLineNumber : IChange -> Z.

(** The test of [findNextClosestChange] on one change. *)
Definition next_matches (lineNumber : Z) (inclusive : bool) (change : IChange) : bool :=
  if inclusive then lineNumber <=? getModifiedEndLineNumber change
  else lineNumber <? modifiedStartLineNumber change.

(** The [for] loop of [findNextClosestChange], from index [i] on. *)
Fixpoint findNext_from (lineNumber : Z) (inclusive : bool) (i : Z)
    (rest : list IChange) : option Z :=
  match rest with
  | [] => None
  | change :: rest' =>
      if next_matches lineNumber inclusive change then Some i
      else findNext_from lineNumber inclusive (i + 1) rest'
  end.

Definition findNextClosestChange (s : DirtyDiffModel) (lineNumber : Z)
    (inclusive : bool) : Z :=
  match findNext_from lineNumber inclusive 0 (changes s) with
  | Some i => i
  | None => 0
  end.

(** The test of [findPreviousClosestChange] on one change. *)
Definition previous_matches (lineNumber : Z) (inclusive : bool) (change : IChange) : bool :=
  if inclusive then modifiedStartLineNumber change <=? lineNumber
  else getModifiedEndLineNumber change <? lineNumber.

(** The [for] loop of [findPreviousClosestChange]: [visited] holds the
    changes from index [i] down to index 0. *)
Fixpoint findPrevious_from (lineNumber : Z) (inclusive : bool) (i : Z)
    (visited : list IChange) : option Z :=
  match visited with
  | [] => None
  | change :: visited' =>
      if previous_matches lineNumber inclusive change then Some i
      else findPrevious_from lineNumber inclusive (i - 1) visited'
  end.

Definition findPreviousClosestChange (s : DirtyDiffModel) (lineNumber : Z)
    (inclusive : bool) : Z :=
  match findPrevious_from lineNumber inclusive (Z.of_nat (length (changes s)) - 1)
                          (rev (changes s)) with
  | Some i => i
  | None => Z.of_nat (length (changes s)) - 1
  end.
End Navigation.

(** *** Situations of a recompute *)

(** The tracker's output: the stored ChangeSet and the deltas fired. *)
Definition same_output (s s' : DirtyDiffModel) : Prop :=
  _changes s' = _changes s /\ _onDidChange s' = _onDidChange s.

(** No provider has an original for the tracked document. *)
Definition no_provider_yields (w : World) (s : DirtyDiffModel) : Prop :=
  forall editorModel, _editorModel s = Some editorModel ->
    Forall (fun r => provider_getOriginalResource r (uri editorModel) = Fulfilled None)
           (repositories w).

(** [createModelReference] is called for [u] in a run started from [s]. *)
Definition acquires (w : World) (u : Uri) (s : DirtyDiffModel) : Prop :=
  _originalURIPromise s = None /\ _editorModel s <> None /\
  getOriginalResource w s = Fulfilled (Some u) /\ has_original u s = false.

(** [dispose()] is called while the providers are asked, or while the
    original model is acquired, and that call then delivers. *)
Definition detached_while_resolving (w : World) (detach : option Suspension)
    (s : DirtyDiffModel) : Prop :=
  (detach = Some InGetOriginalResource /\ _originalURIPromise s = None /\
   exists v, getOriginalResource w s = Fulfilled v) \/
  (detach = Some InCreateModelReference /\
   exists u ref, acquires w u s /\ createModelReference w u = Fulfilled ref).


(** The original-content resolver is called and rejects. *)
Definition resolver_rejects (w : World) (detach : option Suspension)
    (s : DirtyDiffModel) : Prop :=
  detach <> Some InGetOriginalResource /\
  exists u, acquires w u s /\ createModelReference w u = Rejected.

(** The diff oracle is called and rejects. *)
Definition oracle_rejects (w : World) (detach : option Suspension)
    (s : DirtyDiffModel) : Prop :=
  exists u s1 editorModel,
    getOriginalURIPromise w detach s = (Fulfilled (Some u), s1) /\
    _editorModel s1 = Some editorModel /\ isDisposed editorModel = false /\
    canComputeDiff w u (uri editorModel) = true /\
    computeDiff w u (uri editorModel) = Rejected.

End DirtyDiff.

(** * Sample inputs *)

(** A sample end-line helper: the modified end line, or the start line (at
    least 1) for a change without modified lines. *)
Definition sample_getModifiedEndLineNumber (c : DirtyDiff.IChange) : Z :=
  if DirtyDiff.modifiedEndLineNumber c =? 0
  then (if DirtyDiff.modifiedStartLineNumber c =? 0 then 1
        else DirtyDiff.modifiedStartLineNumber c)
  else DirtyDiff.modifiedEndLineNumber c.

Definition sample_changes : list DirtyDiff.IChange :=
  [DirtyDiff.mkChange 1 1 2 2 0; DirtyDiff.mkChange 9 9 10 10 0;
   DirtyDiff.mkChange 19 19 20 20 0].

Definition sample_tracker : DirtyDiff.DirtyDiffModel :=
  DirtyDiff.mkTracker None None None None [] [] [] [] sample_changes None.

Definition sample_editorModel : DirtyDiff.ITextModel :=
  DirtyDiff.mkModel "file:///a.ts" false 10.

Definition sample_originalModel : DirtyDiff.ITextModel :=
  DirtyDiff.mkModel "orig://x" false 5.

Definition sample_emptyOriginalModel : DirtyDiff.ITextModel :=
  DirtyDiff.mkModel "orig://x" false 0.

(** A comparator on the line numbers of two changes: modified start, then
    modified end, then original start, then original end. *)
Definition sample_compareChanges (a b : DirtyDiff.IChange) : Z :=
  let r1 := DirtyDiff.modifiedStartLineNumber a - DirtyDiff.modifiedStartLineNumber b in
  if negb (r1 =? 0) then r1 else
  let r2 := DirtyDiff.modifiedEndLineNumber a - DirtyDiff.modifiedEndLineNumber b in
  if negb (r2 =? 0) then r2 else
  let r3 := DirtyDiff.originalStartLineNumber a - DirtyDiff.originalStartLineNumber b in
  if negb (r3 =? 0) then r3 else
  DirtyDiff.originalEndLineNumber a - DirtyDiff.originalEndLineNumber b.

(** P1 answers with nothing, P2 with "orig://x". *)
Definition P1 : DirtyDiff.ISCMRepository :=
  DirtyDiff.mkRepository 1 (fun _ => Fulfilled None).

Definition P2 : DirtyDiff.ISCMRepository :=
  DirtyDiff.mkRepository 2 (fun _ => Fulfilled (Some "orig://x"%string)).

(** A world in which the diff oracle answers with [sample_changes]. *)
Definition world_two_providers : DirtyDiff.World :=
  DirtyDiff.mkWorld [P1; P2]
    (fun u => Fulfilled (Some (DirtyDiff.mkModel u false 5)))
    (fun _ _ => true)
    (fun _ _ => Fulfilled (Some sample_changes)).

(** A world in which no provider knows the document. *)
Definition world_no_provider : DirtyDiff.World :=
  DirtyDiff.mkWorld [P1]
    (fun u => Fulfilled (Some (DirtyDiff.mkModel u false 5)))
    (fun _ _ => true)
    (fun _ _ => Fulfilled (Some [])).

(** A world in which the diff oracle rejects. *)
Definition world_oracle_rejects : DirtyDiff.World :=
  DirtyDiff.mkWorld [P1; P2]
    (fun u => Fulfilled (Some (DirtyDiff.mkModel u false 5)))
    (fun _ _ => true)
    (fun _ _ => Rejected).

(** A world in which the original-content resolver rejects. *)
Definition world_resolver_rejects : DirtyDiff.World :=
  DirtyDiff.mkWorld [P1; P2]
    (fun _ => Rejected)
    (fun _ _ => true)
    (fun _ _ => Fulfilled (Some sample_changes)).

(** A tracker that is attached, has resolved "orig://x" before and holds
    [sample_changes]. *)
Definition attached_tracker : DirtyDiff.DirtyDiffModel :=
  DirtyDiff.mkTracker (Some sample_originalModel) (Some sample_editorModel)
    (Some (DirtyDiff.new_ThrottledDelayer DirtyDiff.DIFF_DELAY)) None
    [[DirtyDiff.ProviderChanged 1; DirtyDiff.RepositoryRemoved 1]] []
    [DirtyDiff.EditorContentChanged; DirtyDiff.RepositoryAdded] [] sample_changes None.

(** As [attached_tracker], with an original model of length zero. *)
Definition empty_original_tracker : DirtyDiff.DirtyDiffModel :=
  DirtyDiff.mkTracker (Some sample_emptyOriginalModel) (Some sample_editorModel)
    (Some (DirtyDiff.new_ThrottledDelayer DirtyDiff.DIFF_DELAY)) None
    [[DirtyDiff.ProviderChanged 1; DirtyDiff.RepositoryRemoved 1]] []
    [DirtyDiff.EditorContentChanged; DirtyDiff.RepositoryAdded] [] sample_changes None.

(** A tracker with an idle gate. *)
Definition idle_tracker : DirtyDiff.DirtyDiffModel :=
  DirtyDiff.mkTracker None (Some sample_editorModel)
    (Some (DirtyDiff.new_ThrottledDelayer DirtyDiff.DIFF_DELAY)) None
    [] [] [] [] [] None.

(** A tracker that is attached and has not resolved an original yet. *)
Definition fresh_tracker : DirtyDiff.DirtyDiffModel :=
  DirtyDiff.constructor sample_editorModel [P1; P2] 0.

(** * Invariants and further situations *)

(** Every registry entry points to an allocated deferred whose only
    reaction is the clean-up for that very key, and a settled one still has
    that clean-up queued. *)
Definition registry_wf (s : Compare.CompareService) : Prop :=
  forall key h, Compare.comparing s !! key = Some h ->
    exists d, Compare.deferreds s !! h = Some d /\
              Compare.reactions d = [key] /\
              (Compare.settled d = None \/ key ∈ Compare.microtasks s).

(** How often the UI-close command was issued for [key]. *)
Definition closes (key : string) (s : Compare.CompareService) : nat :=
  length (filter (λ c, c = Compare.CLOSE_ALL key) (Compare.executed s)).

(** The tracker holds no original-model disposables, or exactly the model
    reference and its content listener. *)
Definition original_refs_ok (s : DirtyDiff.DirtyDiffModel) : Prop :=
  DirtyDiff.originalModelDisposables s = [] \/
  DirtyDiff.originalModelDisposables s
  = [DirtyDiff.OriginalModelReference; DirtyDiff.OriginalContentChanged].

(** At settlement the tracker is attached to live models. *)
Definition attached_live (s : DirtyDiff.DirtyDiffModel) : Prop :=
  exists editorModel originalModel,
    DirtyDiff._editorModel s = Some editorModel /\
    DirtyDiff.isDisposed editorModel = false /\
    DirtyDiff._originalModel s = Some originalModel /\
    DirtyDiff.isDisposed originalModel = false.

(** The identifier resolves to [u] but the pair cannot be diffed, or the
    oracle is asked and delivers no result. *)
Definition no_diff_available (w : DirtyDiff.World) (detach : option DirtyDiff.Suspension)
    (s s1 : DirtyDiff.DirtyDiffModel) : Prop :=
  exists u editorModel,
    DirtyDiff.getOriginalURIPromise w detach s = (Fulfilled (Some u), s1) /\
    DirtyDiff._editorModel s1 = Some editorModel /\
    (DirtyDiff.canComputeDiff w u (DirtyDiff.uri editorModel) = false \/
     (detach <> Some DirtyDiff.InComputeDiff /\
      DirtyDiff.computeDiff w u (DirtyDiff.uri editorModel) = Fulfilled None)).

(** A world in which the pair is too large to diff. *)
Definition world_too_large : DirtyDiff.World :=
  DirtyDiff.mkWorld [P1; P2]
    (fun u => Fulfilled (Some (DirtyDiff.mkModel u false 5)))
    (fun _ _ => false)
    (fun _ _ => Fulfilled (Some sample_changes)).

(** As [attached_tracker], with an editor model that was disposed by the
    editor while the tracker is still attached. *)
Definition stale_editor_tracker : DirtyDiff.DirtyDiffModel :=
  DirtyDiff.mkTracker (Some sample_originalModel)
    (Some (DirtyDiff.mkModel "file:///a.ts" true 10))
    (Some (DirtyDiff.new_ThrottledDelayer DirtyDiff.DIFF_DELAY)) None
    [[DirtyDiff.ProviderChanged 1; DirtyDiff.RepositoryRemoved 1]] []
    [DirtyDiff.EditorContentChanged; DirtyDiff.RepositoryAdded] [] sample_changes None.

(** The store [onDidAddRepository] creates for a repository. *)
Definition repository_store (r : DirtyDiff.ISCMRepository) : list DirtyDiff.Subscription :=
  [DirtyDiff.ProviderChanged (DirtyDiff.repoId r);
   DirtyDiff.RepositoryRemoved (DirtyDiff.repoId r)].

(** A service with two pending comparisons. *)
Definition two_comparisons : Compare.CompareService :=
  (Compare.compare "c" "d" "y" (Compare.compare "a" "b" "x" Compare.empty_service).2).2.

(** The operations on the compare service: a [compare] call, an accept or
    revert command, and the run of the queued reactions. *)
Inductive CompareOp : Type :=
| OpCompare (original modified : Compare.URI) (name : string)
| OpSignal (outcome : Compare.CompareResult) (resource : option string)
| OpReactions.

Definition run_op (s : Compare.CompareService) (op : CompareOp) : Compare.CompareService :=
  match op with
  | OpCompare original modified name => (Compare.compare original modified name s).2
  | OpSignal outcome resource => Compare.diff_command outcome resource s
  | OpReactions => Compare.run_microtasks s
  end.

Definition run_ops (ops : list CompareOp) (s : Compare.CompareService)
  : Compare.CompareService :=
  foldl run_op s ops.

(** How many clean-up reactions for [key] are queued. *)
Definition queued (key : string) (s : Compare.CompareService) : nat :=
  length (filter (λ k, k = key) (Compare.microtasks s)).

(** 1 when [key] is registered with a pending deferred, 0 otherwise. *)
Definition pending_entry (key : string) (s : Compare.CompareService) : nat :=
  match Compare.comparing s !! key with
  | Some h =>
      match Compare.deferreds s !! h with
      | Some d => match Compare.settled d with Some _ => 0 | None => 1 end
      | None => 0
      end
  | None => 0
  end.

(** Closes issued, due and still possible for [key] do not exceed the opens
    issued for it. *)
Definition balanced (key : string) (s : Compare.CompareService) : Prop :=
  (closes key s + queued key s + pending_entry key s <= Compare.opens key s)%nat.

(** What can happen to a tracker: a run of the pipeline against some
    collaborators (with [dispose()] possibly called during one of its
    calls), a trigger, the clock advancing, the gate being told that the run
    settled, and [dispose()]. *)
Inductive TrackerOp : Type :=
| OpRecompute (w : DirtyDiff.World) (detach : option DirtyDiff.Suspension)
| OpTrigger (now : Z)
| OpTimer (now : Z)
| OpSettled
| OpDispose.

Definition run_tracker_op (compareChanges : DirtyDiff.IChange -> DirtyDiff.IChange -> Z)
    (s : DirtyDiff.DirtyDiffModel) (op : TrackerOp) : DirtyDiff.DirtyDiffModel :=
  match op with
  | OpRecompute w detach => (DirtyDiff.recompute compareChanges w detach s).2
  | OpTrigger now => DirtyDiff.triggerDiff now s
  | OpTimer now => DirtyDiff.timer_elapsed now s
  | OpSettled => DirtyDiff.run_settled s
  | OpDispose => DirtyDiff.dispose s
  end.

Definition run_tracker_ops (compareChanges : DirtyDiff.IChange -> DirtyDiff.IChange -> Z)
    (ops : list TrackerOp) (s : DirtyDiff.DirtyDiffModel) : DirtyDiff.DirtyDiffModel :=
  foldl (run_tracker_op compareChanges) s ops.

(** No resolution is marked in flight between runs; at most one original
    model reference is held; every delta fired has a splice; the tracker has
    an editor model exactly as long as it has a gate; and a tracker without
    editor model holds no original model and no subscription. *)
Definition tracker_inv (s : DirtyDiff.DirtyDiffModel) : Prop :=
  DirtyDiff._originalURIPromise s = None /\
  original_refs_ok s /\
  Forall (fun delta => delta <> []) (DirtyDiff._onDidChange s) /\
  (DirtyDiff._editorModel s = None <-> DirtyDiff.diffDelayer s = None) /\
  (DirtyDiff._editorModel s = None ->
   DirtyDiff._originalModel s = None /\ DirtyDiff.subscriptions s = []).

(** * Properties of the compare service *)

Section CompareFacts.
Import Compare.

Lemma compare_fresh original modified name s :
  comparing s !! compareUri original modified name = None ->
  compare original modified name s =
    (Some (length (deferreds s)),
     executeCommand (OPEN_RESOURCE (compareUri original modified name))
       (comparing_set (compareUri original modified name) (length (deferreds s))
          (new_deferred (compareUri original modified name) s).2)).
Proof.
  intros Hnone. unfold compare. rewrite Hnone. cbn.
  by rewrite lookup_insert_eq.
Qed.

Lemma compare_existing original modified name s h :
  comparing s !! compareUri original modified name = Some h ->
  compare original modified name s =
    (Some h, executeCommand (OPEN_RESOURCE (compareUri original modified name)) s).
Proof.
  intros Hsome. unfold compare. rewrite Hsome. cbn. by rewrite Hsome.
Qed.

Lemma compare_registers original modified name s :
  ∃ h, (compare original modified name s).1 = Some h ∧
       comparing (compare original modified name s).2
         !! compareUri original modified name = Some h.
Proof.
  destruct (comparing s !! compareUri original modified name) as [h|] eqn:E.
  - exists h. rewrite (compare_existing _ _ _ _ _ E). cbn. done.
  - exists (length (deferreds s)). rewrite (compare_fresh _ _ _ _ E). cbn.
    by rewrite lookup_insert_eq.
Qed.

Lemma opens_executeCommand_open key s :
  opens key (executeCommand (OPEN_RESOURCE key) s) = S (opens key s).
Proof.
  unfold opens, executeCommand. cbn.
  rewrite filter_app, length_app. cbn.
  rewrite decide_True by done. cbn. lia.
Qed.

Lemma opens_compare original modified name s :
  opens (compareUri original modified name) (compare original modified name s).2
  = S (opens (compareUri original modified name) s).
Proof.
  destruct (comparing s !! compareUri original modified name) as [h|] eqn:E.
  - rewrite (compare_existing _ _ _ _ _ E). cbn [snd].
    apply opens_executeCommand_open.
  - rewrite (compare_fresh _ _ _ _ E). cbn [snd].
    rewrite opens_executeCommand_open. done.
Qed.

Lemma run_microtasks_fold keys s :
  comparing (foldl (fun acc key => cleanup key acc) s keys)
  = foldl (fun m key => delete key m) (comparing s) keys
  ∧ deferreds (foldl (fun acc key => cleanup key acc) s keys) = deferreds s
  ∧ microtasks (foldl (fun acc key => cleanup key acc) s keys) = microtasks s.
Proof.
  revert s. induction keys as [|k keys IH]; intros s; cbn; [done|].
  destruct (IH (cleanup k s)) as (-> & -> & ->). done.
Qed.

Lemma foldl_delete_lookup (keys : list string) (m : gmap string Handle) key :
  foldl (fun m key => delete key m) m keys !! key
  = if bool_decide (key ∈ keys) then None else m !! key.
Proof.
  revert m. induction keys as [|k keys IH]; intros m; cbn.
  - rewrite bool_decide_eq_false_2; [done | apply not_elem_of_nil].
  - rewrite IH. destruct (decide (key = k)) as [->|Hne].
    + rewrite lookup_delete_eq.
      rewrite (bool_decide_eq_true_2 (k ∈ k :: keys)) by apply list_elem_of_here.
      by destruct (bool_decide (k ∈ keys)).
    + rewrite lookup_delete_ne by done.
      destruct (decide (key ∈ keys)) as [Hin|Hnin].
      * rewrite !bool_decide_eq_true_2; [done | by apply list_elem_of_further | done].
      * rewrite !bool_decide_eq_false_2; [done | | done].
        intros [?|?]%elem_of_cons; done.
Qed.

Lemma resolve_registered key h v s :
  registered key h s ->
  comparing (resolve h v s) = comparing s ∧
  deferreds (resolve h v s) = <[h := mkDeferred (Some v) [key]]> (deferreds s) ∧
  microtasks (resolve h v s) = microtasks s ++ [key] ∧
  executed (resolve h v s) = executed s.
Proof.
  intros [_ Hd]. unfold resolve. rewrite Hd. cbn. done.
Qed.

Lemma resolve_settled h v s d r :
  deferreds s !! h = Some d -> settled d = Some r -> resolve h v s = s.
Proof.
  intros Hd Hr. unfold resolve. by rewrite Hd, Hr.
Qed.
(** C1, as stated, fails: two calls of [compare "a" "b" "x"] on a fresh
    service, the second while the deferred of the first is still pending,
    return the same handle but issue the UI-open command twice, not once. *)
Lemma compare_twice_opens_twice :
  let key := compareUri "a" "b" "x" in
  let r1 := compare "a" "b" "x" empty_service in
  let r2 := compare "a" "b" "x" r1.2 in
  r1.1 = Some 0%nat ∧ is_pending 0 r1.2 ∧ r2.1 = r1.1 ∧
  executed r2.2 = [OPEN_RESOURCE key; OPEN_RESOURCE key] ∧
  ¬ (opens key r2.2 = 1%nat).
Proof.
  cbn zeta.
  generalize (compare_fresh "a" "b" "x" empty_service (lookup_empty _)).
  intros E1. rewrite E1. cbn [fst snd].
  set (s1 := executeCommand _ _).
  assert (comparing s1 !! compareUri "a" "b" "x" = Some 0%nat) as Hk.
  { subst s1. cbn. by rewrite lookup_insert_eq. }
  rewrite (compare_existing _ _ _ _ _ Hk). cbn [fst snd].
  split; [done|]. split.
  { exists (mkDeferred None [compareUri "a" "b" "x"]). done. }
  split; [done|]. split; [done|].
  rewrite opens_executeCommand_open. subst s1.
  rewrite opens_executeCommand_open. lia.
Qed.

(** C1 (amended): a [compare] call made while the entry created or found by
    an earlier call with the same triple is still in the registry returns
    the handle the earlier call returned and creates no further deferred or
    registry entry; the UI-open command is issued once by each of the two
    calls. *)
Theorem compare_deduplicates_pending original modified name s s' :
  let key := compareUri original modified name in
  let r1 := compare original modified name s in
  comparing s' !! key = r1.1 ->
  let r2 := compare original modified name s' in
  is_Some r1.1 ∧ r2.1 = r1.1 ∧
  deferreds r2.2 = deferreds s' ∧
  comparing r2.2 = comparing s' ∧
  executed r2.2 = executed s' ++ [OPEN_RESOURCE key] ∧
  opens key r1.2 = S (opens key s) ∧
  opens key r2.2 = S (opens key s').
Proof.
  cbn zeta. intros Hstill.
  destruct (compare_registers original modified name s) as (h & Hr & Hk).
  rewrite Hr in Hstill.
  rewrite (compare_existing _ _ _ _ _ Hstill). cbn [fst snd].
  rewrite Hr.
  split; [by eexists|]. do 4 (split; [done|]).
  split; [apply opens_compare|].
  apply opens_executeCommand_open.
Qed.

(** Two calls in a row on a fresh service: one handle, one deferred, two
    UI-open commands. *)
Lemma compare_deduplicates_pending_witness :
  let key := compareUri "a" "b" "x" in
  let r1 := compare "a" "b" "x" empty_service in
  let r2 := compare "a" "b" "x" r1.2 in
  comparing r1.2 !! key = r1.1 ∧ r2.1 = r1.1 ∧
  deferreds r2.2 = deferreds r1.2 ∧
  opens key r2.2 = S (opens key r1.2).
Proof.
  cbn zeta.
  assert (comparing (compare "a" "b" "x" empty_service).2 !! compareUri "a" "b" "x"
          = (compare "a" "b" "x" empty_service).1) as Hstill.
  { rewrite (compare_fresh "a" "b" "x" empty_service (lookup_empty _)).
    cbn. by rewrite lookup_insert_eq. }
  split; [exact Hstill|].
  destruct (compare_deduplicates_pending "a" "b" "x" empty_service
              (compare "a" "b" "x" empty_service).2 Hstill)
    as (_ & H2 & H3 & _ & _ & _ & H7).
  repeat split; assumption.
Defined.

(** C9: once a pending comparison is settled and its reaction has run, the
    registry entry is gone, the outcome stays what the first signal made it,
    a further accept or revert signal for the identifier changes nothing
    (whether it arrives before or after the reaction ran), and [compare]
    with the same triple allocates a new pending deferred. *)
Theorem settled_comparison_is_removed original modified name h first again s :
  let key := compareUri original modified name in
  registered key h s ->
  let s1 := diff_command first (Some key) s in
  let s2 := run_microtasks s1 in
  comparing s2 !! key = None ∧
  outcome_of h s2 = Some first ∧
  In (CLOSE_ALL key) (executed s2) ∧
  diff_command again (Some key) s1 = s1 ∧
  diff_command again (Some key) s2 = s2 ∧
  ∃ h', (compare original modified name s2).1 = Some h' ∧ h' ≠ h ∧
        registered key h' (compare original modified name s2).2 ∧
        outcome_of h (compare original modified name s2).2 = Some first.
Proof.
  intros key Hreg. pose proof Hreg as [Hk Hd].
  assert (h < length (deferreds s))%nat as Hlt by (eapply lookup_lt_Some; eauto).
  destruct (resolve_registered key h first s Hreg) as (Hc1 & Hd1 & Hm1 & He1).
  cbn zeta.
  replace (diff_command first (Some key) s) with (resolve h first s)
    by (unfold diff_command; by rewrite Hk).
  set (s1 := resolve h first s) in *.
  assert (deferreds s1 !! h = Some (mkDeferred (Some first) [key])) as Hd1'.
  { rewrite Hd1. by apply list_lookup_insert_eq. }
  unfold run_microtasks.
  set (s1' := mkService (comparing s1) (deferreds s1) [] (executed s1)).
  destruct (run_microtasks_fold (microtasks s1) s1') as (Hc2 & Hd2 & Hm2).
  set (s2 := foldl _ s1' (microtasks s1)) in *.
  assert (comparing s2 !! key = None) as Hgone.
  { rewrite Hc2, foldl_delete_lookup, bool_decide_eq_true_2; [done|].
    rewrite Hm1. apply elem_of_app. right. apply list_elem_of_here. }
  assert (outcome_of h s2 = Some first) as Hout.
  { unfold outcome_of. rewrite Hd2. cbn. by rewrite Hd1'. }
  split; [done|]. split; [done|]. split.
  { subst s2. rewrite Hm1. rewrite foldl_app. cbn. unfold cleanup at 1.
    unfold executeCommand. cbn. apply in_or_app. right. by left. }
  split.
  { unfold diff_command. rewrite Hc1, Hk. eapply resolve_settled; eauto. }
  split.
  { unfold diff_command. by rewrite Hgone. }
  exists (length (deferreds s2)).
  rewrite (compare_fresh _ _ _ _ Hgone). cbn [fst snd].
  assert (length (deferreds s2) = length (deferreds s)) as Hlen.
  { rewrite Hd2. cbn. rewrite Hd1. by rewrite length_insert. }
  split; [done|]. split; [lia|]. split.
  - split; cbn.
    + by rewrite lookup_insert_eq.
    + rewrite lookup_app_r by lia. by rewrite Nat.sub_diag.
  - unfold outcome_of in *. cbn.
    rewrite lookup_app_l by lia. done.
Qed.

(** The hypothesis of C9 holds right after [compare "a" "b" "x"] on a fresh
    service. *)
Lemma settled_comparison_is_removed_witness :
  let key := compareUri "a" "b" "x" in
  let s := (compare "a" "b" "x" empty_service).2 in
  registered key 0 s ∧
  comparing (run_microtasks (diff_command accept (Some key) s)) !! key = None ∧
  outcome_of 0 (run_microtasks (diff_command accept (Some key) s)) = Some accept ∧
  diff_command revert (Some key) (run_microtasks (diff_command accept (Some key) s))
  = run_microtasks (diff_command accept (Some key) s).
Proof.
  cbn zeta.
  assert (registered (compareUri "a" "b" "x") 0
            (compare "a" "b" "x" empty_service).2) as Hreg.
  { rewrite (compare_fresh "a" "b" "x" empty_service (lookup_empty _)).
    split; cbn; [by rewrite lookup_insert_eq | done]. }
  split; [exact Hreg|].
  destruct (settled_comparison_is_removed "a" "b" "x" 0 accept revert _ Hreg)
    as (H1 & H2 & _ & _ & H5 & _).
  repeat split; assumption.
Defined.
End CompareFacts.

(** * Properties of the dirty-diff tracker *)

(** ** Navigation *)

Section NavigationFacts.
Import DirtyDiff.
Variable getModifiedEndLineNumber : IChange -> Z.

Abbreviation findNext := (findNextClosestChange getModifiedEndLineNumber).
Abbreviation findPrevious := (findPreviousClosestChange getModifiedEndLineNumber).

Lemma findNext_from_none lineNumber inclusive i rest :
  Forall (fun c => next_matches getModifiedEndLineNumber lineNumber inclusive c = false) rest ->
  findNext_from getModifiedEndLineNumber lineNumber inclusive i rest = None.
Proof.
  intros Hall. revert i.
  induction Hall as [|c rest Hc _ IH]; intros i; cbn; [done|].
  rewrite Hc. apply IH.
Qed.

Lemma findNext_from_range lineNumber inclusive i rest r :
  findNext_from getModifiedEndLineNumber lineNumber inclusive i rest = Some r ->
  i <= r < i + Z.of_nat (length rest).
Proof.
  revert i. induction rest as [|c rest IH]; intros i; cbn [findNext_from]; [done|].
  destruct (next_matches _ _ _ c).
  - intros [= <-]. cbn [length]. lia.
  - intros H%IH. cbn [length]. lia.
Qed.

Lemma findPrevious_from_none lineNumber inclusive i visited :
  Forall (fun c => previous_matches getModifiedEndLineNumber lineNumber inclusive c = false)
         visited ->
  findPrevious_from getModifiedEndLineNumber lineNumber inclusive i visited = None.
Proof.
  intros Hall. revert i.
  induction Hall as [|c visited Hc _ IH]; intros i; cbn; [done|].
  rewrite Hc. apply IH.
Qed.

Lemma findPrevious_from_range lineNumber inclusive i visited r :
  findPrevious_from getModifiedEndLineNumber lineNumber inclusive i visited = Some r ->
  i - Z.of_nat (length visited) < r <= i.
Proof.
  revert i. induction visited as [|c visited IH]; intros i;
    cbn [findPrevious_from]; [done|].
  destruct (previous_matches _ _ _ c).
  - intros [= <-]. cbn [length]. lia.
  - intros H%IH. cbn [length]. lia.
Qed.

(** C6: with changes on the modified lines 2, 10 and 20, the inclusive
    next-search from line 25 returns index 0 and the inclusive
    previous-search from line 1 returns index 2; and on every non-empty
    ChangeSet both searches return a valid index, which is index 0
    (next) or the last index (previous) when no change passes the test. *)
Theorem navigation_wraps_around s :
  (forall c, modifiedEndLineNumber c <> 0 ->
             getModifiedEndLineNumber c = modifiedEndLineNumber c) ->
  changes s <> [] ->
  (forall c0 c1 c2,
     changes s = [c0; c1; c2] ->
     modifiedStartLineNumber c0 = 2 -> modifiedEndLineNumber c0 = 2 ->
     modifiedStartLineNumber c1 = 10 -> modifiedEndLineNumber c1 = 10 ->
     modifiedStartLineNumber c2 = 20 -> modifiedEndLineNumber c2 = 20 ->
     findNext s 25 true = 0 /\ findPrevious s 1 true = 2) /\
  (forall lineNumber inclusive,
     (Forall (fun c => next_matches getModifiedEndLineNumber lineNumber inclusive c = false)
             (changes s) ->
      findNext s lineNumber inclusive = 0) /\
     (Forall (fun c => previous_matches getModifiedEndLineNumber lineNumber inclusive c = false)
             (changes s) ->
      findPrevious s lineNumber inclusive = Z.of_nat (length (changes s)) - 1) /\
     0 <= findNext s lineNumber inclusive < Z.of_nat (length (changes s)) /\
     0 <= findPrevious s lineNumber inclusive < Z.of_nat (length (changes s))).
Proof.
  intros Hend Hne.
  assert (forall lineNumber inclusive,
     (Forall (fun c => next_matches getModifiedEndLineNumber lineNumber inclusive c = false)
             (changes s) ->
      findNext s lineNumber inclusive = 0) /\
     (Forall (fun c => previous_matches getModifiedEndLineNumber lineNumber inclusive c = false)
             (changes s) ->
      findPrevious s lineNumber inclusive = Z.of_nat (length (changes s)) - 1)) as Hwrap.
  { intros lineNumber inclusive. split; intros Hall.
    - unfold findNextClosestChange. by rewrite findNext_from_none.
    - unfold findPreviousClosestChange. rewrite findPrevious_from_none; [done|].
      by apply Forall_rev. }
  assert (0 < Z.of_nat (length (changes s))) as Hlen.
  { destruct (changes s); [done | cbn [length]; lia]. }
  split.
  - intros c0 c1 c2 Hcs Hs0 He0 Hs1 He1 Hs2 He2.
    destruct (Hwrap 25 true) as [Hn _]. destruct (Hwrap 1 true) as [_ Hp].
    split.
    + apply Hn. rewrite Hcs.
      repeat constructor; unfold next_matches; rewrite Hend by lia;
        apply Z.leb_gt; lia.
    + rewrite Hp.
      * by rewrite Hcs.
      * rewrite Hcs.
        repeat constructor; unfold previous_matches; apply Z.leb_gt; lia.
  - intros lineNumber inclusive.
    destruct (Hwrap lineNumber inclusive) as [Hn Hp].
    split; [exact Hn|]. split; [exact Hp|]. split.
    + unfold findNextClosestChange.
      destruct (findNext_from _ _ _ _ _) as [r|] eqn:E; [|lia].
      apply findNext_from_range in E. lia.
    + unfold findPreviousClosestChange.
      destruct (findPrevious_from _ _ _ _ _) as [r|] eqn:E; [|lia].
      apply findPrevious_from_range in E. rewrite length_rev in E. lia.
Qed.
End NavigationFacts.

Lemma navigation_wraps_around_witness :
  DirtyDiff.findNextClosestChange sample_getModifiedEndLineNumber sample_tracker 25 true = 0 /\
  DirtyDiff.findPreviousClosestChange sample_getModifiedEndLineNumber sample_tracker 1 true = 2.
Proof.
  assert (forall c, DirtyDiff.modifiedEndLineNumber c <> 0 ->
            sample_getModifiedEndLineNumber c = DirtyDiff.modifiedEndLineNumber c) as Hend.
  { intros c Hc. unfold sample_getModifiedEndLineNumber.
    destruct (Z.eqb_spec (DirtyDiff.modifiedEndLineNumber c) 0); [done|reflexivity]. }
  assert (DirtyDiff.changes sample_tracker <> []) as Hne by discriminate.
  destruct (navigation_wraps_around sample_getModifiedEndLineNumber sample_tracker Hend Hne)
    as [Hex _].
  apply (Hex _ _ _ eq_refl); reflexivity.
Defined.

(** ** Provider selection *)

Section ProviderFacts.
Import DirtyDiff.

Lemma first_skips_empty {T : Type} (skipped rest : list (unit -> Settled (option T))) :
  Forall (fun f => f tt = Fulfilled None) skipped ->
  first (skipped ++ rest) = first rest.
Proof.
  induction 1 as [|f skipped Hf _ IH]; cbn; [done|].
  by rewrite Hf.
Qed.

(** C8: the providers are asked in registration order, those that answer
    with nothing are passed over, and the identifier resolved for the
    tracked document is the answer of the first provider that has one. *)
Theorem first_responder_wins w s editorModel skipped winner rest u :
  _editorModel s = Some editorModel ->
  repositories w = skipped ++ winner :: rest ->
  Forall (fun r => provider_getOriginalResource r (uri editorModel) = Fulfilled None)
         skipped ->
  provider_getOriginalResource winner (uri editorModel) = Fulfilled (Some u) ->
  getOriginalResource w s = Fulfilled (Some u).
Proof.
  intros Hem Hrepos Hskip Hwin. unfold getOriginalResource.
  rewrite Hem, Hrepos, map_app, first_skips_empty.
  - cbn. by rewrite Hwin.
  - apply Forall_map. exact Hskip.
Qed.

Lemma no_responder w s :
  (forall editorModel, _editorModel s = Some editorModel ->
     Forall (fun r => provider_getOriginalResource r (uri editorModel) = Fulfilled None)
            (repositories w)) ->
  getOriginalResource w s = Fulfilled None.
Proof.
  intros Hall. unfold getOriginalResource.
  destruct (_editorModel s) as [em|]; [|done].
  specialize (Hall em eq_refl).
  rewrite <- (app_nil_r (map _ _)). rewrite first_skips_empty; [done|].
  apply Forall_map. exact Hall.
Qed.
End ProviderFacts.

(** With P1 answering nothing and P2 answering "orig://x", the resolved
    identifier is "orig://x". *)
Lemma first_responder_wins_witness :
  DirtyDiff.getOriginalResource world_two_providers attached_tracker
  = Fulfilled (Some "orig://x"%string).
Proof.
  apply (first_responder_wins world_two_providers attached_tracker
           sample_editorModel [P1] P2 []).
  - reflexivity.
  - reflexivity.
  - repeat constructor.
  - reflexivity.
Defined.

(** ** The recompute pipeline *)

Section PipelineFacts.
Import DirtyDiff.
Variable compareChanges : IChange -> IChange -> Z.

Lemma same_output_refl s : same_output s s.
Proof. by split. Qed.

Lemma same_output_trans s1 s2 s3 :
  same_output s1 s2 -> same_output s2 s3 -> same_output s1 s3.
Proof. intros [? ?] [? ?]. split; congruence. Qed.

Lemma same_output_dispose s : same_output s (dispose s).
Proof. by split. Qed.

Lemma await_same_output {A : Type} detach here (p : Settled A) s :
  same_output s (await detach here p s).2.
Proof.
  unfold await. cbn. case_bool_decide; [apply same_output_dispose | apply same_output_refl].
Qed.

Lemma onModelReference_same_output u ref s :
  same_output s (onModelReference u ref s).2.
Proof.
  unfold onModelReference. destruct (_editorModel s); [|apply same_output_refl].
  destruct ref; [|apply same_output_refl]. by split.
Qed.

Lemma onOriginalResource_same_output w detach v s :
  same_output s (onOriginalResource w detach v s).2.
Proof.
  unfold onOriginalResource.
  destruct (_editorModel s); [|apply same_output_refl].
  destruct v as [u|]; [|by split].
  destruct (has_original u s); [apply same_output_refl|].
  unfold bind.
  pose proof (await_same_output detach InCreateModelReference (createModelReference w u) s) as Ha.
  destruct (await _ _ _ s) as [[ref|] s1]; cbn in *; [|exact Ha].
  eapply same_output_trans; [exact Ha|]. apply onModelReference_same_output.
Qed.

Lemma getOriginalURIPromise_same_output w detach s :
  same_output s (getOriginalURIPromise w detach s).2.
Proof.
  unfold getOriginalURIPromise.
  destruct (_originalURIPromise s); [apply same_output_refl|].
  unfold finally, bind.
  pose proof (await_same_output detach InGetOriginalResource (getOriginalResource w s) s) as Ha.
  destruct (await _ _ _ s) as [[v|] s1]; cbn in *.
  - pose proof (onOriginalResource_same_output w detach v s1) as Hb.
    destruct (onOriginalResource w detach v s1) as [r s2]. cbn in *.
    destruct Ha, Hb. split; cbn; congruence.
  - destruct Ha. by split.
Qed.

Lemma onOriginalURI_same_output w detach v s :
  same_output s (onOriginalURI w detach v s).2.
Proof.
  unfold onOriginalURI.
  destruct (_editorModel s) as [em|]; [|apply same_output_refl].
  destruct v as [u|]; [|apply same_output_refl].
  destruct (isDisposed em); [apply same_output_refl|].
  destruct (negb _); [apply same_output_refl|].
  apply await_same_output.
Qed.

(** Nothing before the settlement callback touches the stored ChangeSet or
    fires a delta. *)
Lemma diff_same_output w detach s :
  same_output s (diff w detach s).2.
Proof.
  unfold diff, bind.
  pose proof (getOriginalURIPromise_same_output w detach s) as Ha.
  destruct (getOriginalURIPromise w detach s) as [[v|] s1]; cbn in *; [|exact Ha].
  eapply same_output_trans; [exact Ha|]. apply onOriginalURI_same_output.
Qed.

Lemma recompute_unfold w detach s :
  recompute compareChanges w detach s =
    match diff w detach s with
    | (Fulfilled changes, s1) => (Fulfilled tt, onChanges compareChanges changes s1)
    | (Rejected, s1) => (Rejected, s1)
    end.
Proof. reflexivity. Qed.

(** The settlement callback either returns at its guard or publishes. *)
Lemma onChanges_cases changes s :
  onChanges compareChanges changes s = s \/
  exists editorModel originalModel,
    _editorModel s = Some editorModel /\ _originalModel s = Some originalModel /\
    isDisposed editorModel = false /\ isDisposed originalModel = false /\
    let new := published originalModel changes in
    let delta := sortedDiff compareChanges (_changes s) new in
    _changes (onChanges compareChanges changes s) = new /\
    ((delta = [] /\ _onDidChange (onChanges compareChanges changes s) = _onDidChange s) \/
     (delta <> [] /\
      _onDidChange (onChanges compareChanges changes s) = _onDidChange s ++ [delta])).
Proof.
  unfold onChanges.
  destruct (_editorModel s) as [em|]; [|by left].
  destruct (_originalModel s) as [om|]; [|by left].
  destruct (isDisposed em) eqn:Eem; [by left|].
  destruct (isDisposed om) eqn:Eom; [by left|].
  right. exists em, om. cbn [orb]. do 4 (split; [done|]). cbn zeta.
  destruct (sortedDiff compareChanges (_changes s) (published om changes)) as [|d ds] eqn:E.
  - cbn. split; [done|]. by left.
  - cbn. split; [done|]. right. by split.
Qed.

Lemma sortedDiff_walk_same (l : list IChange) idx res :
  (forall c, compareChanges c c = 0) ->
  sortedDiff_walk compareChanges l l idx res = res.
Proof.
  intros Hrefl. revert idx res.
  induction l as [|c l IH]; intros idx res; cbn; [done|].
  rewrite Hrefl. cbn. apply IH.
Qed.

(** The list-diff of a ChangeSet against itself has no splice. *)
Lemma sortedDiff_same (l : list IChange) :
  (forall c, compareChanges c c = 0) ->
  sortedDiff compareChanges l l = [].
Proof.
  intros Hrefl. unfold sortedDiff. by rewrite sortedDiff_walk_same.
Qed.

(** C7: a recompute that leaves the stored ChangeSet as it was fires no
    delta; and a recompute fires at most one delta, which is then the
    non-empty list-diff between the previous and the new ChangeSet. *)
Theorem identical_result_emits_nothing w detach s :
  (forall c, compareChanges c c = 0) ->
  let s' := (recompute compareChanges w detach s).2 in
  (_changes s' = _changes s -> _onDidChange s' = _onDidChange s) /\
  (_onDidChange s' = _onDidChange s \/
   (sortedDiff compareChanges (_changes s) (_changes s') <> [] /\
    _onDidChange s' =
      _onDidChange s ++ [sortedDiff compareChanges (_changes s) (_changes s')])).
Proof.
  intros Hrefl. cbn zeta. rewrite recompute_unfold.
  destruct (diff_same_output w detach s) as [Hc Hf].
  destruct (diff w detach s) as [[changes|] s1]; cbn [snd] in *.
  2: { split; [done | by left]. }
  destruct (onChanges_cases changes s1) as [-> | (em & om & _ & _ & _ & _ & Hpub)].
  { split; [done | by left]. }
  cbn zeta in Hpub. destruct Hpub as [Hnew Hfire].
  rewrite <- Hnew, Hc in Hfire. rewrite Hf in Hfire.
  split.
  - intros Hsame. destruct Hfire as [[_ ?]|[Hne _]]; [done|].
    rewrite Hsame, sortedDiff_same in Hne; done.
  - destruct Hfire as [[_ ?]|[Hne ?]]; [by left | by right].
Qed.

Lemma onChanges_attached changes s editorModel originalModel :
  _editorModel s = Some editorModel -> isDisposed editorModel = false ->
  _originalModel s = Some originalModel -> isDisposed originalModel = false ->
  _changes (onChanges compareChanges changes s) = published originalModel changes.
Proof.
  intros Hem Hemd Hom Homd. unfold onChanges.
  rewrite Hem, Hom, Hemd, Homd. cbn [orb].
  by destruct (0 <? length _)%nat.
Qed.

(** C10: when a recompute settles on a tracker that is still attached and
    whose original model has length zero, the ChangeSet it stores is empty,
    whatever the diff oracle delivered. *)
Theorem empty_original_publishes_nothing w detach s changes s1 editorModel originalModel :
  diff w detach s = (Fulfilled changes, s1) ->
  _editorModel s1 = Some editorModel -> isDisposed editorModel = false ->
  _originalModel s1 = Some originalModel -> isDisposed originalModel = false ->
  getValueLength originalModel = 0 ->
  (recompute compareChanges w detach s).1 = Fulfilled tt /\
  _changes (recompute compareChanges w detach s).2 = [].
Proof.
  intros Hdiff Hem Hemd Hom Homd Hlen.
  rewrite recompute_unfold, Hdiff. cbn [fst snd].
  split; [done|].
  rewrite (onChanges_attached _ _ _ _ Hem Hemd Hom Homd).
  unfold published. rewrite Hlen. by destruct changes.
Qed.
End PipelineFacts.

Lemma sample_compareChanges_refl c : sample_compareChanges c c = 0.
Proof.
  unfold sample_compareChanges. rewrite !Z.sub_diag. reflexivity.
Qed.

(** The oracle answers with the ChangeSet already stored: nothing is fired. *)
Lemma identical_result_emits_nothing_witness :
  DirtyDiff._changes
    (DirtyDiff.recompute sample_compareChanges world_two_providers None attached_tracker).2
  = sample_changes /\
  DirtyDiff._onDidChange
    (DirtyDiff.recompute sample_compareChanges world_two_providers None attached_tracker).2
  = [].
Proof.
  split; [reflexivity|].
  apply (identical_result_emits_nothing sample_compareChanges world_two_providers None
           attached_tracker sample_compareChanges_refl).
  reflexivity.
Defined.

(** The oracle answers with three changes, the original is empty: the
    stored ChangeSet becomes empty. *)
Lemma empty_original_publishes_nothing_witness :
  DirtyDiff.diff world_two_providers None empty_original_tracker
  = (Fulfilled (Some sample_changes), empty_original_tracker) /\
  DirtyDiff._changes
    (DirtyDiff.recompute sample_compareChanges world_two_providers None
       empty_original_tracker).2 = [].
Proof.
  split; [reflexivity|].
  apply (empty_original_publishes_nothing sample_compareChanges world_two_providers None
           empty_original_tracker (Some sample_changes) empty_original_tracker
           sample_editorModel sample_emptyOriginalModel);
    reflexivity.
Defined.

(** ** Detach, unavailable results and collaborator failures *)

Section DetachFacts.
Import DirtyDiff.
Variable compareChanges : IChange -> IChange -> Z.

Lemma onChanges_detached changes s :
  _editorModel s = None \/ _originalModel s = None ->
  onChanges compareChanges changes s = s.
Proof.
  unfold onChanges. intros [-> | ->]; [done|]. by destruct (_editorModel s).
Qed.

Lemma onOriginalURI_detached w detach v s :
  _editorModel s = None ->
  onOriginalURI w detach v s = (Fulfilled (Some []), s).
Proof. unfold onOriginalURI. by intros ->. Qed.

Lemma onOriginalURI_none w detach s :
  onOriginalURI w detach None s = (Fulfilled (Some []), s).
Proof. unfold onOriginalURI. by destruct (_editorModel s). Qed.

Lemma onOriginalResource_detached w detach v s :
  _editorModel s = None ->
  onOriginalResource w detach v s = (Fulfilled None, s).
Proof. unfold onOriginalResource. by intros ->. Qed.

Lemma onModelReference_detached u ref s :
  _editorModel s = None ->
  onModelReference u ref s = (Fulfilled None, s).
Proof. unfold onModelReference. by intros ->. Qed.

(** On a detached tracker the rest of a run does nothing, whatever the call
    in flight delivers. *)
Lemma resume_getOriginalResource_detached w detach v s :
  _editorModel s = None ->
  resume_getOriginalResource compareChanges w detach v s
  = (Fulfilled tt, clear_originalURIPromise s).
Proof.
  intros Hem. unfold resume_getOriginalResource, bind, finally.
  rewrite onOriginalResource_detached by done.
  rewrite onOriginalURI_detached by done.
  by rewrite onChanges_detached by (by left).
Qed.

Lemma resume_createModelReference_detached w detach u ref s :
  _editorModel s = None ->
  resume_createModelReference compareChanges w detach u ref s
  = (Fulfilled tt, clear_originalURIPromise s).
Proof.
  intros Hem. unfold resume_createModelReference, bind, finally.
  rewrite onModelReference_detached by done.
  rewrite onOriginalURI_detached by done.
  by rewrite onChanges_detached by (by left).
Qed.


(** A run in which [dispose()] is called during a call continues, when that
    call delivers, as the rest of the run on the disposed tracker. *)
Lemma getOriginalURIPromise_start w detach s v :
  _originalURIPromise s = None ->
  getOriginalResource w s = Fulfilled v ->
  getOriginalURIPromise w detach s =
    finally (onOriginalResource w detach v) clear_originalURIPromise
      (if bool_decide (detach = Some InGetOriginalResource) then dispose s else s).
Proof.
  intros Hp Hv. unfold getOriginalURIPromise. rewrite Hp.
  unfold finally, bind, await. by rewrite Hv.
Qed.

Lemma getOriginalURIPromise_rejected w detach s :
  _originalURIPromise s = None ->
  getOriginalResource w s = Rejected ->
  (getOriginalURIPromise w detach s).1 = Rejected.
Proof.
  intros Hp Hv. unfold getOriginalURIPromise. rewrite Hp.
  unfold finally, bind, await. by rewrite Hv.
Qed.

Lemma onOriginalResource_acquire w detach u s :
  _editorModel s <> None -> has_original u s = false ->
  onOriginalResource w detach (Some u) s =
    match createModelReference w u with
    | Fulfilled ref =>
        onModelReference u ref
          (if bool_decide (detach = Some InCreateModelReference) then dispose s else s)
    | Rejected =>
        (Rejected,
         if bool_decide (detach = Some InCreateModelReference) then dispose s else s)
    end.
Proof.
  intros Hem Hcached. unfold onOriginalResource.
  destruct (_editorModel s); [|done]. rewrite Hcached.
  unfold bind, await. by destruct (createModelReference w u).
Qed.

Lemma recompute_detached_InGetOriginalResource w s v :
  _originalURIPromise s = None ->
  getOriginalResource w s = Fulfilled v ->
  recompute compareChanges w (Some InGetOriginalResource) s
  = resume_getOriginalResource compareChanges w (Some InGetOriginalResource) v (dispose s).
Proof.
  intros Hp Hv.
  unfold recompute, diff, resume_getOriginalResource, bind.
  rewrite (getOriginalURIPromise_start _ _ _ _ Hp Hv).
  by rewrite bool_decide_eq_true_2 by done.
Qed.

Lemma recompute_detached_InCreateModelReference w s u ref :
  acquires w u s ->
  createModelReference w u = Fulfilled ref ->
  recompute compareChanges w (Some InCreateModelReference) s
  = resume_createModelReference compareChanges w (Some InCreateModelReference) u ref
      (dispose s).
Proof.
  intros (Hp & Hem & Hv & Hcached) Href.
  unfold recompute, diff, resume_createModelReference, bind.
  rewrite (getOriginalURIPromise_start _ _ _ _ Hp Hv).
  rewrite bool_decide_eq_false_2 by done.
  unfold finally. rewrite (onOriginalResource_acquire _ _ _ _ Hem Hcached), Href.
  by rewrite bool_decide_eq_true_2 by done.
Qed.

Lemma recompute_guarded w detach s changes s1 :
  diff w detach s = (Fulfilled changes, s1) ->
  _editorModel s1 = None \/ _originalModel s1 = None ->
  recompute compareChanges w detach s = (Fulfilled tt, s1) /\ same_output s s1.
Proof.
  intros Hdiff Hguard. rewrite recompute_unfold, Hdiff.
  rewrite onChanges_detached by done. split; [done|].
  pose proof (diff_same_output w detach s) as H. by rewrite Hdiff in H.
Qed.

Lemma recompute_rejected w detach s :
  (diff w detach s).1 = Rejected ->
  (recompute compareChanges w detach s).1 = Rejected /\
  same_output s (recompute compareChanges w detach s).2.
Proof.
  intros Hdiff. rewrite recompute_unfold.
  pose proof (diff_same_output w detach s) as H.
  destruct (diff w detach s) as [[c|] s1]; [done|]. by split.
Qed.

Lemma same_output_clear s s' :
  same_output s s' -> same_output s (clear_originalURIPromise s').
Proof. by intros [? ?]. Qed.

(** C2, as stated, fails: no provider knows the document, the diff task
    yields the empty ChangeSet and nothing is raised, but the tracker keeps
    the three changes it had stored. *)
Lemma no_provider_keeps_stored_changes :
  no_provider_yields world_no_provider attached_tracker /\
  (diff world_no_provider None attached_tracker).1 = Fulfilled (Some []) /\
  (recompute sample_compareChanges world_no_provider None attached_tracker).1
    = Fulfilled tt /\
  _changes (recompute sample_compareChanges world_no_provider None attached_tracker).2
    = sample_changes /\
  ~ (_changes (recompute sample_compareChanges world_no_provider None attached_tracker).2
     = []).
Proof.
  split.
  { intros em _. repeat constructor. }
  split; [reflexivity|]. split; [reflexivity|]. split; [reflexivity|]. discriminate.
Qed.

(** C2 (amended): when no provider yields an identifier, or the tracker is
    detached while the identifier or the original model is being resolved
    and that call delivers, the diff task yields the empty ChangeSet and the
    recompute fulfils; the stored ChangeSet is left as it was and no delta
    is fired. *)
Theorem unavailable_original_is_absorbed w detach s :
  _originalURIPromise s = None ->
  no_provider_yields w s \/ detached_while_resolving w detach s ->
  (diff w detach s).1 = Fulfilled (Some []) /\
  (recompute compareChanges w detach s).1 = Fulfilled tt /\
  same_output s (recompute compareChanges w detach s).2.
Proof.
  intros Hp [Hnone | [(-> & _ & v & Hv) | (-> & u & ref & Hacq & Href)]].
  - pose proof (no_responder w s Hnone) as Hv.
    assert (exists s1, diff w detach s = (Fulfilled (Some []), s1) /\
                       (_editorModel s1 = None \/ _originalModel s1 = None)) as (s1 & Hd & Hg).
    { unfold diff, bind. rewrite (getOriginalURIPromise_start _ _ _ _ Hp Hv).
      unfold finally, onOriginalResource.
      set (s0 := if bool_decide _ then dispose s else s).
      destruct (_editorModel s0) eqn:Eem.
      - rewrite onOriginalURI_none. eexists. split; [done|]. by right.
      - rewrite onOriginalURI_none. eexists. split; [done|]. by left. }
    destruct (recompute_guarded w detach s _ _ Hd Hg) as [Hr Hso].
    rewrite Hd, Hr. done.
  - split.
    + unfold diff, bind. rewrite (getOriginalURIPromise_start _ _ _ _ Hp Hv).
      rewrite bool_decide_eq_true_2 by done. unfold finally.
      rewrite onOriginalResource_detached by done.
      by rewrite onOriginalURI_detached by done.
    + rewrite (recompute_detached_InGetOriginalResource w s v Hp Hv).
      rewrite resume_getOriginalResource_detached by done. by split.
  - pose proof Hacq as (_ & Hem & Hv & Hcached). split.
    + unfold diff, bind. rewrite (getOriginalURIPromise_start _ _ _ _ Hp Hv).
      rewrite bool_decide_eq_false_2 by done. unfold finally.
      rewrite (onOriginalResource_acquire _ _ _ _ Hem Hcached), Href.
      rewrite bool_decide_eq_true_2 by done.
      rewrite onModelReference_detached by done.
      by rewrite onOriginalURI_detached by done.
    + rewrite (recompute_detached_InCreateModelReference w s u ref Hacq Href).
      rewrite resume_createModelReference_detached by done. by split.
Qed.

(** C3, as stated, fails: when the diff oracle rejects, or the
    original-content resolver rejects, the recompute rejects as well instead
    of completing with an empty ChangeSet. *)
Lemma collaborator_failure_is_not_absorbed :
  oracle_rejects world_oracle_rejects None attached_tracker /\
  (recompute sample_compareChanges world_oracle_rejects None attached_tracker).1
    = Rejected /\
  ~ (_changes (recompute sample_compareChanges world_oracle_rejects None
                 attached_tracker).2 = []) /\
  resolver_rejects world_resolver_rejects None fresh_tracker /\
  (recompute sample_compareChanges world_resolver_rejects None fresh_tracker).1
    = Rejected.
Proof.
  split.
  { exists "orig://x"%string, attached_tracker, sample_editorModel.
    repeat split; reflexivity. }
  split; [reflexivity|]. split; [discriminate|]. split; [|reflexivity].
  split; [discriminate|]. exists "orig://x"%string.
  split; [|reflexivity]. repeat split; try reflexivity. discriminate.
Qed.

(** C3 (amended): when the original-content resolver or the diff oracle is
    called and rejects, the failure is not caught: the recompute rejects,
    the stored ChangeSet is left as it was and no delta is fired. *)
Theorem collaborator_failure_rejects w detach s :
  resolver_rejects w detach s \/ oracle_rejects w detach s ->
  (recompute compareChanges w detach s).1 = Rejected /\
  same_output s (recompute compareChanges w detach s).2.
Proof.
  intros Hfail. apply recompute_rejected.
  destruct Hfail as [(Hd & u & (Hp & Hem & Hv & Hcached) & Hrej)
                    | (u & s1 & em & Hres & Hem & Hdisp & Hcan & Hrej)].
  - unfold diff, bind. rewrite (getOriginalURIPromise_start _ _ _ _ Hp Hv).
    rewrite bool_decide_eq_false_2 by done. unfold finally.
    by rewrite (onOriginalResource_acquire _ _ _ _ Hem Hcached), Hrej.
  - unfold diff, bind. rewrite Hres. unfold onOriginalURI.
    rewrite Hem, Hdisp, Hcan. cbn [negb]. unfold await. by rewrite Hrej.
Qed.



End DetachFacts.

(** No provider knows the document: the stored ChangeSet stays and nothing
    is fired. *)
Lemma unavailable_original_is_absorbed_witness :
  DirtyDiff._originalURIPromise attached_tracker = None /\
  DirtyDiff.no_provider_yields world_no_provider attached_tracker /\
  (DirtyDiff.diff world_no_provider None attached_tracker).1 = Fulfilled (Some []) /\
  DirtyDiff.same_output attached_tracker
    (DirtyDiff.recompute sample_compareChanges world_no_provider None attached_tracker).2.
Proof.
  assert (DirtyDiff.no_provider_yields world_no_provider attached_tracker) as Hnone.
  { intros em _. repeat constructor. }
  split; [reflexivity|]. split; [exact Hnone|].
  destruct (unavailable_original_is_absorbed sample_compareChanges world_no_provider None
              attached_tracker eq_refl (or_introl Hnone)) as (Hd & _ & Hso).
  split; assumption.
Defined.


(** The diff oracle rejects: so does the recompute. *)
Lemma collaborator_failure_rejects_witness :
  DirtyDiff.oracle_rejects world_oracle_rejects None attached_tracker /\
  (DirtyDiff.recompute sample_compareChanges world_oracle_rejects None attached_tracker).1
  = Rejected.
Proof.
  assert (DirtyDiff.oracle_rejects world_oracle_rejects None attached_tracker) as Hrej.
  { exists "orig://x"%string, attached_tracker, sample_editorModel.
    repeat split; reflexivity. }
  split; [exact Hrej|].
  apply (collaborator_failure_rejects sample_compareChanges world_oracle_rejects None
           attached_tracker (or_intror Hrej)).
Defined.

(** ** The coalescing gate *)

Section GateFacts.
Import DirtyDiff.

Lemma gate_run_triggers_scheduled times g deadline :
  phase g = Scheduled deadline ->
  gate_run (map Trigger times) g = g.
Proof.
  intros Hph. induction times as [|t times IH]; cbn; [done|].
  unfold trigger at 1. rewrite Hph. exact IH.
Qed.

Lemma gate_run_triggers_requeued times g :
  phase g = RunningRequeued ->
  gate_run (map Trigger times) g = g.
Proof.
  intros Hph. induction times as [|t times IH]; cbn; [done|].
  unfold trigger at 1. rewrite Hph. exact IH.
Qed.

Lemma gate_run_triggers_idle t0 later g :
  phase g = Idle ->
  gate_run (map Trigger (t0 :: later)) g
  = mkDelayer (defaultDelay g) (Scheduled (t0 + defaultDelay g)) (runs g).
Proof.
  intros Hph. cbn. unfold trigger at 1. rewrite Hph.
  by apply gate_run_triggers_scheduled with (deadline := t0 + defaultDelay g).
Qed.

Lemma gate_run_triggers_running t later g :
  phase g = Running ->
  gate_run (map Trigger (t :: later)) g
  = mkDelayer (defaultDelay g) RunningRequeued (runs g).
Proof.
  intros Hph. cbn. unfold trigger at 1. rewrite Hph.
  by apply gate_run_triggers_requeued.
Qed.

Lemma triggerDiff_burst_gate times s g :
  diffDelayer s = Some g ->
  triggerDiff_burst times s
  = set_diffDelayer (Some (gate_run (map Trigger times) g)) s.
Proof.
  revert s g. induction times as [|t times IH]; intros s g Hg.
  - cbn. destruct s. cbn in *. by rewrite Hg.
  - cbn. unfold triggerDiff at 2. rewrite Hg.
    change (foldl _ ?a times) with (triggerDiff_burst times a).
    by rewrite (IH _ (trigger t g)).
Qed.

(** The constructor triggers once per known repository and once more, all
    at the same time: a single run starts when the delay has passed. *)
Lemma constructor_schedules_one_run editorModel repos now :
  gate_phase (constructor editorModel repos now) = Some (Scheduled (now + DIFF_DELAY)) /\
  runs_started (timer_elapsed (now + DIFF_DELAY) (constructor editorModel repos now)) = 1%nat.
Proof.
  unfold constructor.
  set (s2 := addDispose _ (addDispose _ _)).
  assert (forall s, gate_phase s = Some Idle \/ gate_phase s = Some (Scheduled (now + DIFF_DELAY)) ->
            runs_started s = 0%nat ->
            (exists g, diffDelayer s = Some g /\ defaultDelay g = DIFF_DELAY) ->
            gate_phase (triggerDiff now s) = Some (Scheduled (now + DIFF_DELAY)) /\
            runs_started (triggerDiff now s) = 0%nat /\
            (exists g, diffDelayer (triggerDiff now s) = Some g /\ defaultDelay g = DIFF_DELAY))
    as Hstep.
  { intros s Hph Hruns (g & Hg & Hdelay).
    unfold gate_phase, runs_started, triggerDiff in *. rewrite Hg in *. cbn in *.
    unfold trigger. destruct Hph as [[= Hph] | [= Hph]]; rewrite Hph; cbn.
    - rewrite Hdelay. split; [done|]. split; [done|]. by eexists.
    - rewrite Hph. split; [done|]. split; [done|]. by eexists. }
  assert (forall s, gate_phase s = Some Idle \/ gate_phase s = Some (Scheduled (now + DIFF_DELAY)) ->
            runs_started s = 0%nat ->
            (exists g, diffDelayer s = Some g /\ defaultDelay g = DIFF_DELAY) ->
            let s' := foldl (fun s r => onDidAddRepository now r s) s repos in
            (gate_phase s' = Some Idle \/ gate_phase s' = Some (Scheduled (now + DIFF_DELAY))) /\
            runs_started s' = 0%nat /\
            (exists g, diffDelayer s' = Some g /\ defaultDelay g = DIFF_DELAY)) as Hfold.
  { induction repos as [|r repos IH]; intros s Hph Hruns Hg; cbn; [done|].
    apply IH; unfold onDidAddRepository;
      destruct (Hstep (set_repositoryDisposables
                         (repositoryDisposables s ++
                            [[ProviderChanged (repoId r); RepositoryRemoved (repoId r)]]) s))
        as (H1 & H2 & H3); auto. }
  destruct (Hfold s2) as (Hph & Hruns & Hg); [by left | done | by eexists |].
  cbn zeta in *.
  destruct (Hstep _ Hph Hruns Hg) as (H1 & H2 & (g & H3 & H4)).
  unfold gate_phase, runs_started, timer_elapsed in *. cbn. rewrite H3 in *. cbn in *.
  split; [done|]. injection H1 as H1. unfold timer. rewrite H1.
  rewrite Z.leb_refl. cbn. by rewrite H2.
Qed.

(** C4: triggers arriving within the delay window on an idle gate start
    exactly one run, at the end of the window and not before; no run starts
    while that one is running; and when the run settles, exactly one further
    run starts if any trigger arrived during it, and none otherwise. *)
Theorem triggers_coalesce s g t0 later during :
  diffDelayer s = Some g -> phase g = Idle -> defaultDelay g = DIFF_DELAY ->
  Forall (fun t => t0 <= t < t0 + DIFF_DELAY) later ->
  let s1 := triggerDiff_burst (t0 :: later) s in
  let s2 := timer_elapsed (t0 + DIFF_DELAY) s1 in
  let s3 := triggerDiff_burst during s2 in
  let s4 := run_settled s3 in
  gate_phase s1 = Some (Scheduled (t0 + DIFF_DELAY)) /\
  runs_started s1 = runs_started s /\
  (forall now, now < t0 + DIFF_DELAY -> timer_elapsed now s1 = s1) /\
  gate_phase s2 = Some Running /\
  runs_started s2 = S (runs_started s) /\
  runs_started s3 = S (runs_started s) /\
  (during = [] ->
   gate_phase s4 = Some Idle /\ runs_started s4 = S (runs_started s)) /\
  (during <> [] ->
   gate_phase s4 = Some Running /\ runs_started s4 = S (S (runs_started s)) /\
   gate_phase (run_settled s4) = Some Idle /\
   runs_started (run_settled s4) = S (S (runs_started s))).
Proof.
  intros Hg Hidle Hdelay Hwindow. cbn zeta.
  rewrite (triggerDiff_burst_gate _ _ _ Hg), (gate_run_triggers_idle _ _ _ Hidle), Hdelay.
  set (s1 := set_diffDelayer _ s).
  assert (runs_started s = runs g) as Hruns by (unfold runs_started; by rewrite Hg).
  rewrite Hruns.
  split; [done|]. split; [done|]. split.
  { intros now Hnow. unfold timer_elapsed, timer. cbn.
    by rewrite (proj2 (Z.leb_gt _ _)) by lia. }
  assert (timer_elapsed (t0 + DIFF_DELAY) s1
          = set_diffDelayer (Some (mkDelayer DIFF_DELAY Running (S (runs g)))) s) as Hs2.
  { unfold timer_elapsed, timer. cbn. by rewrite Z.leb_refl. }
  rewrite Hs2. split; [done|]. split; [done|].
  destruct during as [|t during].
  - cbn. split; [done|]. split; [done|]. done.
  - rewrite (triggerDiff_burst_gate _ _ (mkDelayer DIFF_DELAY Running (S (runs g))))
      by done.
    rewrite gate_run_triggers_running by done. cbn.
    split; [done|]. split; [done|]. done.
Qed.
End GateFacts.

(** Three triggers within the window, then two more during the run. *)
Lemma triggers_coalesce_witness :
  let s1 := DirtyDiff.triggerDiff_burst [0; 50; 199] idle_tracker in
  let s2 := DirtyDiff.timer_elapsed 200 s1 in
  let s4 := DirtyDiff.run_settled (DirtyDiff.triggerDiff_burst [210; 220] s2) in
  DirtyDiff.runs_started s2 = 1%nat /\ DirtyDiff.runs_started s4 = 2%nat /\
  DirtyDiff.runs_started (DirtyDiff.run_settled s4) = 2%nat.
Proof.
  assert (Forall (fun t => 0 <= t < 0 + DirtyDiff.DIFF_DELAY) [50; 199]) as Hwindow.
  { repeat constructor; unfold DirtyDiff.DIFF_DELAY; lia. }
  destruct (triggers_coalesce idle_tracker
              (DirtyDiff.new_ThrottledDelayer DirtyDiff.DIFF_DELAY) 0 [50; 199] [210; 220]
              eq_refl eq_refl eq_refl Hwindow)
    as (_ & _ & _ & _ & H2 & _ & _ & H4).
  destruct H4 as (_ & H4 & _ & H5); [discriminate|].
  cbn zeta. split; [exact H2|]. split; [exact H4 | exact H5].
Defined.

(** * Further properties of the compare service *)

Section CompareInvariant.
Import Compare.

Lemma registry_wf_empty : registry_wf empty_service.
Proof. intros key h Hk. cbn in Hk. by rewrite lookup_empty in Hk. Qed.

Lemma registry_wf_compare original modified name s :
  registry_wf s -> registry_wf (compare original modified name s).2.
Proof.
  intros Hwf.
  destruct (comparing s !! compareUri original modified name) as [h0|] eqn:E.
  - rewrite (compare_existing _ _ _ _ _ E). exact Hwf.
  - rewrite (compare_fresh _ _ _ _ E). cbn [snd]. intros key h. cbn.
    destruct (decide (compareUri original modified name = key)) as [<-|Hne].
    + rewrite lookup_insert_eq. intros [= <-].
      exists (mkDeferred None [compareUri original modified name]).
      rewrite lookup_app_r by lia. rewrite Nat.sub_diag. cbn. auto.
    + rewrite lookup_insert_ne by done. intros Hk.
      destruct (Hwf key h Hk) as (d & Hd & Hr & Hs).
      exists d. rewrite lookup_app_l by (eapply lookup_lt_Some; eauto). auto.
Qed.

Lemma registry_wf_resolve h v s :
  registry_wf s -> registry_wf (resolve h v s).
Proof.
  intros Hwf. unfold resolve.
  destruct (deferreds s !! h) as [d0|] eqn:Ed0; [|exact Hwf].
  destruct (settled d0) eqn:Es0; [exact Hwf|].
  intros key h' Hk. cbn in *.
  destruct (Hwf key h' Hk) as (d & Hd & Hr & Hs).
  destruct (decide (h = h')) as [<-|Hne].
  - exists (mkDeferred (Some v) (reactions d0)).
    rewrite list_lookup_insert_eq by (eapply lookup_lt_Some; eauto).
    assert (d = d0) as -> by congruence.
    cbn. split; [done|]. split; [done|]. right.
    rewrite Hr. apply elem_of_app. right. apply list_elem_of_here.
  - exists d. rewrite list_lookup_insert_ne by done.
    split; [done|]. split; [done|].
    destruct Hs as [?|Hin]; [by left|]. right. apply elem_of_app. by left.
Qed.

Lemma registry_wf_diff_command outcome resource s :
  registry_wf s -> registry_wf (diff_command outcome resource s).
Proof.
  intros Hwf. unfold diff_command. destruct resource as [uri|]; [|done].
  destruct (comparing s !! uri); [|done]. by apply registry_wf_resolve.
Qed.

Lemma run_microtasks_comparing s key :
  comparing (run_microtasks s) !! key
  = if bool_decide (key ∈ microtasks s) then None else comparing s !! key.
Proof.
  unfold run_microtasks.
  destruct (run_microtasks_fold (microtasks s)
              (mkService (comparing s) (deferreds s) [] (executed s))) as (-> & _ & _).
  apply foldl_delete_lookup.
Qed.

Lemma run_microtasks_deferreds s : deferreds (run_microtasks s) = deferreds s.
Proof.
  unfold run_microtasks.
  by destruct (run_microtasks_fold (microtasks s)
                 (mkService (comparing s) (deferreds s) [] (executed s))) as (_ & -> & _).
Qed.

Lemma run_microtasks_queue s : microtasks (run_microtasks s) = [].
Proof.
  unfold run_microtasks.
  by destruct (run_microtasks_fold (microtasks s)
                 (mkService (comparing s) (deferreds s) [] (executed s))) as (_ & _ & ->).
Qed.

Lemma cleanup_fold_executed keys s :
  executed (foldl (fun acc key => cleanup key acc) s keys)
  = executed s ++ map CLOSE_ALL keys.
Proof.
  revert s. induction keys as [|k keys IH]; intros s; cbn.
  - by rewrite app_nil_r.
  - rewrite IH. cbn. by rewrite <- app_assoc.
Qed.

Lemma run_microtasks_executed s :
  executed (run_microtasks s) = executed s ++ map CLOSE_ALL (microtasks s).
Proof. unfold run_microtasks. by rewrite cleanup_fold_executed. Qed.

Lemma run_microtasks_pending s key h :
  registry_wf s ->
  comparing (run_microtasks s) !! key = Some h ->
  comparing s !! key = Some h /\ is_pending h (run_microtasks s).
Proof.
  intros Hwf. rewrite run_microtasks_comparing.
  case_bool_decide as Hin; [done|]. intros Hk. split; [done|].
  destruct (Hwf key h Hk) as (d & Hd & _ & [Hs|Hq]); [|done].
  exists d. by rewrite run_microtasks_deferreds.
Qed.

Lemma registry_wf_run_microtasks s :
  registry_wf s -> registry_wf (run_microtasks s).
Proof.
  intros Hwf key h Hk.
  destruct (run_microtasks_pending s key h Hwf Hk) as [Hk0 (d & Hd & Hs)].
  destruct (Hwf key h Hk0) as (d' & Hd' & Hr & _).
  rewrite run_microtasks_deferreds in Hd.
  exists d. rewrite run_microtasks_deferreds.
  assert (d = d') as -> by congruence. auto.
Qed.

(** The registry invariant is kept by every operation of the service. *)
Lemma registry_wf_kept s :
  registry_wf s ->
  (forall original modified name, registry_wf (compare original modified name s).2) /\
  (forall outcome resource, registry_wf (diff_command outcome resource s)) /\
  registry_wf (run_microtasks s).
Proof.
  intros Hwf. split; [|split].
  - intros. by apply registry_wf_compare.
  - intros. by apply registry_wf_diff_command.
  - by apply registry_wf_run_microtasks.
Qed.

(** X1: when no clean-up reaction is outstanding, the promise that
    [compare] returns is still pending, whether it is a new one or one the
    registry already held. *)
Theorem compare_returns_pending original modified name s :
  registry_wf s -> microtasks s = [] ->
  exists h, (compare original modified name s).1 = Some h /\
            is_pending h (compare original modified name s).2.
Proof.
  intros Hwf Hq.
  destruct (comparing s !! compareUri original modified name) as [h|] eqn:E.
  - rewrite (compare_existing _ _ _ _ _ E). exists h. split; [done|].
    destruct (Hwf _ _ E) as (d & Hd & _ & [Hs|Hin]).
    + by exists d.
    + rewrite Hq in Hin. by apply not_elem_of_nil in Hin.
  - rewrite (compare_fresh _ _ _ _ E). exists (length (deferreds s)).
    split; [done|]. exists (mkDeferred None [compareUri original modified name]).
    cbn. rewrite lookup_app_r by lia. by rewrite Nat.sub_diag.
Qed.

(** Two registry entries never share a deferred. *)
Lemma registry_handles_distinct s key1 key2 h :
  registry_wf s ->
  comparing s !! key1 = Some h -> comparing s !! key2 = Some h ->
  key1 = key2.
Proof.
  intros Hwf H1 H2.
  destruct (Hwf _ _ H1) as (d1 & Hd1 & Hr1 & _).
  destruct (Hwf _ _ H2) as (d2 & Hd2 & Hr2 & _).
  congruence.
Qed.

(** X2: two signals for the same pending comparison before its clean-up
    ran settle it once: the first outcome stays, the entry is removed and
    the close command is issued exactly once. *)
Theorem duplicate_signal_closes_once key h first again s :
  registered key h s -> microtasks s = [] ->
  let s2 := run_microtasks
              (diff_command again (Some key) (diff_command first (Some key) s)) in
  executed s2 = executed s ++ [CLOSE_ALL key] /\
  outcome_of h s2 = Some first /\
  comparing s2 !! key = None /\
  microtasks s2 = [].
Proof.
  intros Hreg Hq. pose proof Hreg as [Hk Hd].
  destruct (resolve_registered key h first s Hreg) as (Hc1 & Hd1 & Hm1 & He1).
  assert (h < length (deferreds s))%nat as Hlt by (eapply lookup_lt_Some; eauto).
  assert (diff_command first (Some key) s = resolve h first s) as E1.
  { unfold diff_command. by rewrite Hk. }
  assert (deferreds (resolve h first s) !! h = Some (mkDeferred (Some first) [key])) as Hd1'.
  { rewrite Hd1. by apply list_lookup_insert_eq. }
  assert (diff_command again (Some key) (resolve h first s) = resolve h first s) as E2.
  { unfold diff_command. rewrite Hc1, Hk. eapply resolve_settled; eauto. }
  cbn zeta. rewrite E1, E2.
  rewrite run_microtasks_executed, He1, Hm1, Hq. split; [done|].
  split.
  { unfold outcome_of. rewrite run_microtasks_deferreds, Hd1'. done. }
  split; [|apply run_microtasks_queue].
  rewrite run_microtasks_comparing, Hm1, Hq.
  rewrite bool_decide_eq_true_2; [done | apply list_elem_of_here].
Qed.

(** X3: settling one comparison leaves another pending comparison alone: it
    stays registered and pending, and no close command is issued for it. *)
Theorem settling_is_isolated key h key' h' outcome s :
  registered key h s -> registered key' h' s -> key <> key' ->
  microtasks s = [] ->
  let s2 := run_microtasks (diff_command outcome (Some key) s) in
  registered key' h' s2 /\ closes key' s2 = closes key' s.
Proof.
  intros Hreg Hreg' Hne Hq. pose proof Hreg as [Hk Hd]. pose proof Hreg' as [Hk' Hd'].
  destruct (resolve_registered key h outcome s Hreg) as (Hc1 & Hd1 & Hm1 & He1).
  assert (h <> h') as Hh by (intros ->; congruence).
  assert (diff_command outcome (Some key) s = resolve h outcome s) as E1.
  { unfold diff_command. by rewrite Hk. }
  cbn zeta. rewrite E1. split.
  - split.
    + rewrite run_microtasks_comparing, Hm1, Hq, Hc1.
      rewrite bool_decide_eq_false_2; [done|].
      intros Hin. apply list_elem_of_singleton in Hin. done.
    + rewrite run_microtasks_deferreds, Hd1.
      by rewrite list_lookup_insert_ne.
  - unfold closes. rewrite run_microtasks_executed, He1, Hm1, Hq. cbn.
    rewrite filter_app, length_app. cbn.
    rewrite decide_False by congruence. cbn. lia.
Qed.
End CompareInvariant.

Lemma two_comparisons_wf : registry_wf two_comparisons.
Proof.
  unfold two_comparisons. do 2 apply registry_wf_compare. apply registry_wf_empty.
Qed.

Lemma two_comparisons_first :
  Compare.registered (Compare.compareUri "a" "b" "x") 0 two_comparisons.
Proof. split; vm_compute; reflexivity. Qed.

Lemma two_comparisons_second :
  Compare.registered (Compare.compareUri "c" "d" "y") 1 two_comparisons.
Proof. split; vm_compute; reflexivity. Qed.

Lemma compare_returns_pending_witness :
  registry_wf two_comparisons /\ Compare.microtasks two_comparisons = [] /\
  exists h, (Compare.compare "a" "b" "x" two_comparisons).1 = Some h /\
            Compare.is_pending h (Compare.compare "a" "b" "x" two_comparisons).2.
Proof.
  split; [exact two_comparisons_wf|]. split; [reflexivity|].
  apply (compare_returns_pending "a" "b" "x" two_comparisons two_comparisons_wf eq_refl).
Defined.

Lemma duplicate_signal_closes_once_witness :
  Compare.registered (Compare.compareUri "a" "b" "x") 0 two_comparisons /\
  Compare.executed
    (Compare.run_microtasks
       (Compare.diff_command Compare.revert (Some (Compare.compareUri "a" "b" "x"))
          (Compare.diff_command Compare.accept (Some (Compare.compareUri "a" "b" "x"))
             two_comparisons)))
  = Compare.executed two_comparisons
    ++ [Compare.CLOSE_ALL (Compare.compareUri "a" "b" "x")].
Proof.
  split; [exact two_comparisons_first|].
  apply (duplicate_signal_closes_once _ 0%nat Compare.accept Compare.revert
           two_comparisons two_comparisons_first eq_refl).
Defined.

Lemma settling_is_isolated_witness :
  Compare.registered (Compare.compareUri "c" "d" "y") 1
    (Compare.run_microtasks
       (Compare.diff_command Compare.accept (Some (Compare.compareUri "a" "b" "x"))
          two_comparisons)).
Proof.
  assert (Compare.compareUri "a" "b" "x" <> Compare.compareUri "c" "d" "y") as Hne.
  { vm_compute. discriminate. }
  apply (settling_is_isolated _ 0%nat _ 1%nat Compare.accept two_comparisons
           two_comparisons_first two_comparisons_second Hne eq_refl).
Defined.

(** * Further properties of the navigation *)

Section NavigationSearch.
Import DirtyDiff.
Variable getModifiedEndLineNumber : IChange -> Z.

Abbreviation next_ok := (next_matches getModifiedEndLineNumber).
Abbreviation previous_ok := (previous_matches getModifiedEndLineNumber).

Lemma findNext_from_first lineNumber inclusive i rest r :
  findNext_from getModifiedEndLineNumber lineNumber inclusive i rest = Some r ->
  exists (k : nat) c,
    r = i + Z.of_nat k /\ rest !! k = Some c /\ next_ok lineNumber inclusive c = true /\
    forall (j : nat) c', (j < k)%nat -> rest !! j = Some c' ->
                         next_ok lineNumber inclusive c' = false.
Proof.
  revert i. induction rest as [|c rest IH]; intros i; cbn [findNext_from]; [done|].
  destruct (next_ok lineNumber inclusive c) eqn:E.
  - intros [= <-]. exists 0%nat, c. split; [lia|]. split; [done|]. split; [done|]. lia.
  - intros (k & c0 & -> & Hk & Hm & Hmin)%IH.
    exists (S k), c0. split; [lia|]. split; [done|]. split; [done|].
    intros [|j] c' Hj Hc'; cbn in Hc'.
    + congruence.
    + apply (Hmin j); [lia | done].
Qed.

Lemma findNext_from_some lineNumber inclusive i rest :
  Exists (fun c => next_ok lineNumber inclusive c = true) rest ->
  is_Some (findNext_from getModifiedEndLineNumber lineNumber inclusive i rest).
Proof.
  intros Hex. revert i. induction Hex as [c rest Hc | c rest _ IH]; intros i;
    cbn [findNext_from].
  - rewrite Hc. by eexists.
  - destruct (next_ok lineNumber inclusive c); [by eexists | apply IH].
Qed.

Lemma findPrevious_from_last lineNumber inclusive (l : list IChange) r :
  findPrevious_from getModifiedEndLineNumber lineNumber inclusive
    (Z.of_nat (length l) - 1) (rev l) = Some r ->
  exists (k : nat) c,
    r = Z.of_nat k /\ l !! k = Some c /\ previous_ok lineNumber inclusive c = true /\
    forall (j : nat) c', (k < j)%nat -> l !! j = Some c' ->
                         previous_ok lineNumber inclusive c' = false.
Proof.
  induction l as [|c l IH] using rev_ind; [done|].
  rewrite rev_app_distr, length_app. cbn [rev app length findPrevious_from].
  destruct (previous_ok lineNumber inclusive c) eqn:E.
  - intros [= <-]. exists (length l), c. split; [lia|].
    split; [by apply list_lookup_middle|]. split; [done|].
    intros j c' Hj Hc'. apply lookup_lt_Some in Hc'. rewrite length_app in Hc'.
    cbn in Hc'. lia.
  - replace (Z.of_nat (length l + 1) - 1 - 1) with (Z.of_nat (length l) - 1) by lia.
    intros (k & c0 & -> & Hk & Hm & Hmax)%IH.
    exists k, c0. split; [done|].
    split; [by apply lookup_app_l_Some|]. split; [done|].
    intros j c' Hj Hc'.
    destruct (decide (j < length l)%nat) as [Hlt|Hge].
    + rewrite lookup_app_l in Hc' by done. by apply (Hmax j).
    + assert (j = length l) as ->.
      { apply lookup_lt_Some in Hc'. rewrite length_app in Hc'. cbn in Hc'. lia. }
      rewrite list_lookup_middle in Hc' by done. congruence.
Qed.

Lemma findPrevious_from_some lineNumber inclusive i visited :
  Exists (fun c => previous_ok lineNumber inclusive c = true) visited ->
  is_Some (findPrevious_from getModifiedEndLineNumber lineNumber inclusive i visited).
Proof.
  intros Hex. revert i. induction Hex as [c rest Hc | c rest _ IH]; intros i;
    cbn [findPrevious_from].
  - rewrite Hc. by eexists.
  - destruct (previous_ok lineNumber inclusive c); [by eexists | apply IH].
Qed.

(** X5: when some change passes the test, [findNextClosestChange] returns
    the smallest index whose change passes it. *)
Theorem findNext_is_first_match s lineNumber inclusive :
  Exists (fun c => next_ok lineNumber inclusive c = true) (changes s) ->
  exists (k : nat) c,
    findNextClosestChange getModifiedEndLineNumber s lineNumber inclusive = Z.of_nat k /\
    changes s !! k = Some c /\ next_ok lineNumber inclusive c = true /\
    forall (j : nat) c', (j < k)%nat -> changes s !! j = Some c' ->
                         next_ok lineNumber inclusive c' = false.
Proof.
  intros Hex. unfold findNextClosestChange.
  destruct (findNext_from_some lineNumber inclusive 0 _ Hex) as [r Hr]. rewrite Hr.
  destruct (findNext_from_first _ _ _ _ _ Hr) as (k & c & -> & Hk & Hm & Hmin).
  exists k, c. split; [lia|]. auto.
Qed.

(** X6: when some change passes the test, [findPreviousClosestChange]
    returns the largest index whose change passes it. *)
Theorem findPrevious_is_last_match s lineNumber inclusive :
  Exists (fun c => previous_ok lineNumber inclusive c = true) (changes s) ->
  exists (k : nat) c,
    findPreviousClosestChange getModifiedEndLineNumber s lineNumber inclusive = Z.of_nat k /\
    changes s !! k = Some c /\ previous_ok lineNumber inclusive c = true /\
    forall (j : nat) c', (k < j)%nat -> changes s !! j = Some c' ->
                         previous_ok lineNumber inclusive c' = false.
Proof.
  intros Hex. unfold findPreviousClosestChange.
  assert (Exists (fun c => previous_ok lineNumber inclusive c = true) (rev (changes s)))
    as Hex'.
  { apply Exists_exists in Hex as (c & Hin & Hc). apply Exists_exists.
    exists c. split; [|done].
    apply list_elem_of_In. apply -> in_rev. by apply list_elem_of_In. }
  destruct (findPrevious_from_some lineNumber inclusive
              (Z.of_nat (length (changes s)) - 1) _ Hex') as [r Hr].
  rewrite Hr. by apply findPrevious_from_last.
Qed.

End NavigationSearch.

Lemma findNext_is_first_match_witness :
  exists (k : nat) c,
    DirtyDiff.findNextClosestChange sample_getModifiedEndLineNumber sample_tracker 5 true
    = Z.of_nat k /\
    DirtyDiff.changes sample_tracker !! k = Some c /\
    DirtyDiff.next_matches sample_getModifiedEndLineNumber 5 true c = true.
Proof.
  assert (Exists (fun c => DirtyDiff.next_matches sample_getModifiedEndLineNumber 5 true c
                           = true) (DirtyDiff.changes sample_tracker)) as Hex.
  { apply Exists_cons_tl, Exists_cons_hd. reflexivity. }
  destruct (findNext_is_first_match sample_getModifiedEndLineNumber sample_tracker 5 true Hex)
    as (k & c & H1 & H2 & H3 & _).
  exists k, c. auto.
Defined.

Lemma findPrevious_is_last_match_witness :
  exists (k : nat) c,
    DirtyDiff.findPreviousClosestChange sample_getModifiedEndLineNumber sample_tracker 15 true
    = Z.of_nat k /\
    DirtyDiff.changes sample_tracker !! k = Some c /\
    DirtyDiff.previous_matches sample_getModifiedEndLineNumber 15 true c = true.
Proof.
  assert (Exists (fun c => DirtyDiff.previous_matches sample_getModifiedEndLineNumber 15 true c
                           = true) (DirtyDiff.changes sample_tracker)) as Hex.
  { apply Exists_cons_hd. reflexivity. }
  destruct (findPrevious_is_last_match sample_getModifiedEndLineNumber sample_tracker 15 true
              Hex) as (k & c & H1 & H2 & H3 & _).
  exists k, c. auto.
Defined.

(** * Further properties of the recompute pipeline *)

Section PipelineInvariants.
Import DirtyDiff.
Variable compareChanges : IChange -> IChange -> Z.

(** What [dispose()] leaves of a tracker. *)
Lemma dispose_fields s :
  _editorModel (dispose s) = None /\ _originalModel (dispose s) = None /\
  diffDelayer (dispose s) = None /\ repositoryDisposables (dispose s) = [] /\
  originalModelDisposables (dispose s) = [] /\ disposables (dispose s) = [] /\
  _originalURIPromise (dispose s) = _originalURIPromise s.
Proof. by repeat split. Qed.

Ltac pipeline_cases :=
  unfold recompute, diff, getOriginalURIPromise, onOriginalURI, onOriginalResource,
    onModelReference, onChanges, clear_originalURIPromise, bind, finally, await;
  repeat (case_match; simplify_eq/=); cbn.

Lemma getOriginalURIPromise_cleared w detach s :
  _originalURIPromise s = None ->
  _originalURIPromise (getOriginalURIPromise w detach s).2 = None.
Proof.
  intros Hp. unfold getOriginalURIPromise. rewrite Hp.
  unfold finally. by destruct (bind _ _ s).
Qed.

Lemma onOriginalURI_marker w detach v s :
  _originalURIPromise (onOriginalURI w detach v s).2 = _originalURIPromise s.
Proof. by pipeline_cases. Qed.

Lemma onChanges_marker changes s :
  _originalURIPromise (onChanges compareChanges changes s) = _originalURIPromise s.
Proof. by pipeline_cases. Qed.

(** A run started with no resolution in flight leaves none in flight: the
    marker is cleared however the run settles. *)
Lemma recompute_clears_marker w detach s :
  _originalURIPromise s = None ->
  _originalURIPromise (recompute compareChanges w detach s).2 = None.
Proof.
  intros Hp. pose proof (getOriginalURIPromise_cleared w detach s Hp) as Hc.
  unfold recompute, diff, bind.
  destruct (getOriginalURIPromise w detach s) as [[v|] s1]; cbn [snd] in *; [|done].
  pose proof (onOriginalURI_marker w detach v s1) as Hm.
  destruct (onOriginalURI w detach v s1) as [[c|] s2]; cbn [snd] in *.
  - rewrite onChanges_marker. congruence.
  - congruence.
Qed.

(** X8: when the identifier the providers answer is the one of the cached
    original model, the model is reused: the resolution delivers the
    identifier and leaves the tracker exactly as it was, without asking the
    resolver. *)
Theorem cached_original_is_reused w detach s u :
  _originalURIPromise s = None -> _editorModel s <> None ->
  getOriginalResource w s = Fulfilled (Some u) ->
  has_original u s = true ->
  detach <> Some InGetOriginalResource ->
  getOriginalURIPromise w detach s = (Fulfilled (Some u), s).
Proof.
  intros Hp Hem Hv Hcached Hd.
  rewrite (getOriginalURIPromise_start _ _ _ _ Hp Hv).
  rewrite bool_decide_eq_false_2 by done.
  unfold finally, onOriginalResource.
  destruct (_editorModel s); [|done]. rewrite Hcached.
  unfold clear_originalURIPromise, set_originalURIPromise.
  destruct s. cbn in *. by subst.
Qed.

(** X9: when the identifier differs from the cached one and the resolver
    delivers a model, that model replaces the cached original and the
    tracker holds exactly its reference and its content listener; the
    stored ChangeSet, the deltas fired and the editor model are untouched. *)
Theorem original_is_replaced w s u model :
  acquires w u s ->
  createModelReference w u = Fulfilled (Some model) ->
  exists s',
    getOriginalURIPromise w None s = (Fulfilled (Some u), s') /\
    _originalModel s' = Some model /\
    originalModelDisposables s' = [OriginalModelReference; OriginalContentChanged] /\
    same_output s s' /\ _editorModel s' = _editorModel s.
Proof.
  intros (Hp & Hem & Hv & Hcached) Href.
  rewrite (getOriginalURIPromise_start _ _ _ _ Hp Hv).
  rewrite bool_decide_eq_false_2 by done. unfold finally.
  rewrite (onOriginalResource_acquire _ _ _ _ Hem Hcached), Href.
  rewrite bool_decide_eq_false_2 by done.
  unfold onModelReference. destruct (_editorModel s) eqn:E; [|done].
  eexists. split; [reflexivity|]. cbn. by repeat split.
Qed.

(** Whatever the collaborators answer and whenever [dispose()] is called, a
    run keeps the tracker holding either no original-model disposable or
    exactly one model reference with its content listener. *)
Lemma recompute_keeps_refs w detach s :
  original_refs_ok s ->
  original_refs_ok (recompute compareChanges w detach s).2.
Proof.
  unfold original_refs_ok. intros Hok.
  pipeline_cases; auto.
Qed.

Lemma recompute_frame_cases w detach s :
  let s' := (recompute compareChanges w detach s).2 in
  (_editorModel s' = _editorModel s /\ diffDelayer s' = diffDelayer s /\
   repositoryDisposables s' = repositoryDisposables s /\
   disposables s' = disposables s) \/
  (detach <> None /\ _editorModel s' = None /\ _originalModel s' = None /\
   diffDelayer s' = None /\ subscriptions s' = []).
Proof.
  cbn zeta. pipeline_cases;
    repeat match goal with
           | H : bool_decide _ = true |- _ => apply bool_decide_eq_true in H
           end;
    first [ left; by repeat split | right; subst; by repeat split ].
Qed.

(** X10: a run during which [dispose()] is not called leaves the editor
    model, the gate and the subscriptions to the editor and the
    repositories as they were; with [dispose()] called, the tracker it
    leaves is detached and holds nothing. *)
Theorem recompute_frame w detach s :
  let s' := (recompute compareChanges w detach s).2 in
  (_editorModel s' = _editorModel s /\ diffDelayer s' = diffDelayer s /\
   repositoryDisposables s' = repositoryDisposables s /\
   disposables s' = disposables s) \/
  (detach <> None /\ _editorModel s' = None /\ _originalModel s' = None /\
   diffDelayer s' = None /\ subscriptions s' = []).
Proof.
  cbn zeta. pipeline_cases;
    repeat match goal with
           | H : bool_decide _ = true |- _ => apply bool_decide_eq_true in H
           end;
    first [ left; by repeat split | right; subst; by repeat split ].
Qed.

Lemma set_changes_same s : set_changes (_changes s) s = s.
Proof. by destruct s. Qed.

(** X11: the settlement callback is idempotent: delivering the same result
    a second time stores the same ChangeSet and fires nothing more. *)
Theorem onChanges_idempotent changes s :
  (forall c, compareChanges c c = 0) ->
  onChanges compareChanges changes (onChanges compareChanges changes s)
  = onChanges compareChanges changes s.
Proof.
  intros Hrefl.
  destruct (_editorModel s) as [em|] eqn:Eem;
    [|by rewrite !(onChanges_detached compareChanges changes s) by auto].
  destruct (_originalModel s) as [om|] eqn:Eom;
    [|by rewrite !(onChanges_detached compareChanges changes s) by auto].
  destruct (isDisposed em || isDisposed om) eqn:Ed.
  { assert (onChanges compareChanges changes s = s) as E.
    { unfold onChanges. by rewrite Eem, Eom, Ed. }
    by rewrite !E. }
  set (new := published om changes).
  assert (forall s0, _editorModel s0 = Some em -> _originalModel s0 = Some om ->
            _changes s0 = new -> onChanges compareChanges changes s0 = s0) as Hagain.
  { intros s0 H1 H2 H3. unfold onChanges. rewrite H1, H2, Ed. cbn zeta.
    fold new. rewrite H3, sortedDiff_same by done. cbn.
    rewrite <- H3. apply set_changes_same. }
  assert (onChanges compareChanges changes s
          = if (0 <? length (sortedDiff compareChanges (_changes s) new))%nat
            then fire (sortedDiff compareChanges (_changes s) new) (set_changes new s)
            else set_changes new s) as ->.
  { unfold onChanges. by rewrite Eem, Eom, Ed. }
  destruct (0 <? length _)%nat; by apply Hagain.
Qed.

(** X12: when the pair cannot be diffed, or the oracle delivers no result,
    a run that settles on an attached tracker with live models fulfils and
    stores the empty ChangeSet. *)
Theorem no_diff_empties_changes w detach s s1 :
  no_diff_available w detach s s1 -> attached_live s1 ->
  (recompute compareChanges w detach s).1 = Fulfilled tt /\
  _changes (recompute compareChanges w detach s).2 = [].
Proof.
  intros (u & em & Hres & Hem & Hno) (em' & om & Hem' & Hemd & Hom & Homd).
  assert (em' = em) as -> by congruence.
  assert (exists c, diff w detach s = (Fulfilled c, s1) /\ published om c = [])
    as (c & Hdiff & Hpub).
  { unfold diff, bind. rewrite Hres. unfold onOriginalURI. rewrite Hem, Hemd.
    destruct Hno as [Hcan | [Hd Hnone]].
    - rewrite Hcan. cbn [negb]. exists (Some []). split; [done|].
      unfold published. by destruct (_ =? _).
    - destruct (canComputeDiff w u (uri em)); cbn [negb].
      + unfold await. rewrite Hnone, bool_decide_eq_false_2 by done.
        by exists None.
      + exists (Some []). split; [done|]. unfold published. by destruct (_ =? _). }
  rewrite recompute_unfold, Hdiff. cbn [fst snd]. split; [done|].
  by rewrite (onChanges_attached compareChanges c s1 em om Hem Hemd Hom Homd).
Qed.

Lemma getOriginalURIPromise_editorModel w detach s :
  _editorModel (getOriginalURIPromise w detach s).2 = _editorModel s \/
  _editorModel (getOriginalURIPromise w detach s).2 = None.
Proof. pipeline_cases; auto. Qed.

Lemma diff_editorModel w detach s :
  _editorModel (diff w detach s).2 = _editorModel s \/
  _editorModel (diff w detach s).2 = None.
Proof. pipeline_cases; auto. Qed.

(** X13: once the editor has disposed the editor model, a run never asks
    the diff oracle: if the resolution fulfils, the diff task yields the
    empty ChangeSet; and however it settles, the stored ChangeSet stays and
    no delta is fired. *)
Theorem disposed_editor_model_is_ignored w detach s editorModel :
  _editorModel s = Some editorModel -> isDisposed editorModel = true ->
  (forall v s1, getOriginalURIPromise w detach s = (Fulfilled v, s1) ->
                diff w detach s = (Fulfilled (Some []), s1)) /\
  same_output s (recompute compareChanges w detach s).2.
Proof.
  intros Hem Hdisp.
  assert (forall s1, _editorModel s1 = _editorModel s \/ _editorModel s1 = None ->
                     forall c, onChanges compareChanges c s1 = s1) as Hguard.
  { intros s1 [H|H] c; unfold onChanges; rewrite H; [|done].
    rewrite Hem, Hdisp. by destruct (_originalModel s1). }
  split.
  - intros v s1 Hres. unfold diff, bind. rewrite Hres.
    assert (_editorModel s1 = Some editorModel \/ _editorModel s1 = None) as [H|H].
    { pose proof (getOriginalURIPromise_editorModel w detach s) as Hed.
      rewrite Hres, Hem in Hed. exact Hed. }
    + unfold onOriginalURI. rewrite H, Hdisp. by destruct v.
    + by rewrite onOriginalURI_detached.
  - rewrite recompute_unfold.
    pose proof (diff_same_output w detach s) as Hso.
    pose proof (diff_editorModel w detach s) as Hed.
    destruct (diff w detach s) as [[c|] s1]; cbn [snd] in *; [|done].
    by rewrite Hguard.
Qed.
End PipelineInvariants.

Lemma cached_original_is_reused_witness :
  DirtyDiff.has_original "orig://x" attached_tracker = true /\
  DirtyDiff.getOriginalURIPromise world_resolver_rejects None attached_tracker
  = (Fulfilled (Some "orig://x"%string), attached_tracker).
Proof.
  split; [reflexivity|].
  apply (cached_original_is_reused world_resolver_rejects None attached_tracker "orig://x").
  - reflexivity.
  - discriminate.
  - reflexivity.
  - reflexivity.
  - discriminate.
Defined.

Lemma fresh_tracker_acquires :
  DirtyDiff.acquires world_two_providers "orig://x" fresh_tracker.
Proof. repeat split; try reflexivity. discriminate. Qed.

Lemma original_is_replaced_witness :
  exists s',
    DirtyDiff.getOriginalURIPromise world_two_providers None fresh_tracker
    = (Fulfilled (Some "orig://x"%string), s') /\
    DirtyDiff._originalModel s' = Some (DirtyDiff.mkModel "orig://x" false 5).
Proof.
  destruct (original_is_replaced world_two_providers fresh_tracker "orig://x"
              (DirtyDiff.mkModel "orig://x" false 5) fresh_tracker_acquires eq_refl)
    as (s' & H1 & H2 & _).
  exists s'. split; assumption.
Defined.

Lemma onChanges_idempotent_witness :
  DirtyDiff.onChanges sample_compareChanges (Some [])
    (DirtyDiff.onChanges sample_compareChanges (Some []) attached_tracker)
  = DirtyDiff.onChanges sample_compareChanges (Some []) attached_tracker.
Proof.
  apply (onChanges_idempotent sample_compareChanges (Some []) attached_tracker
           sample_compareChanges_refl).
Defined.

Lemma no_diff_empties_changes_witness :
  no_diff_available world_too_large None attached_tracker attached_tracker /\
  attached_live attached_tracker /\
  DirtyDiff._changes
    (DirtyDiff.recompute sample_compareChanges world_too_large None attached_tracker).2
  = [].
Proof.
  assert (no_diff_available world_too_large None attached_tracker attached_tracker) as Hno.
  { exists "orig://x"%string, sample_editorModel.
    split; [reflexivity|]. split; [reflexivity|]. left. reflexivity. }
  assert (attached_live attached_tracker) as Hlive.
  { exists sample_editorModel, sample_originalModel. repeat split; reflexivity. }
  split; [exact Hno|]. split; [exact Hlive|].
  apply (no_diff_empties_changes sample_compareChanges world_too_large None
           attached_tracker attached_tracker Hno Hlive).
Defined.

Lemma disposed_editor_model_is_ignored_witness :
  DirtyDiff.diff world_two_providers None stale_editor_tracker
  = (Fulfilled (Some []), stale_editor_tracker) /\
  DirtyDiff.same_output stale_editor_tracker
    (DirtyDiff.recompute sample_compareChanges world_two_providers None
       stale_editor_tracker).2.
Proof.
  destruct (disposed_editor_model_is_ignored sample_compareChanges world_two_providers None
              stale_editor_tracker (DirtyDiff.mkModel "file:///a.ts" true 10)
              eq_refl eq_refl) as [Hdiff Hso].
  split; [|exact Hso].
  apply (Hdiff (Some "orig://x"%string) stale_editor_tracker). reflexivity.
Defined.

(** * The constructor *)

Section ConstructorFacts.
Import DirtyDiff.

Lemma triggerDiff_frame now s :
  _originalModel (triggerDiff now s) = _originalModel s /\
  _editorModel (triggerDiff now s) = _editorModel s /\
  repositoryDisposables (triggerDiff now s) = repositoryDisposables s /\
  originalModelDisposables (triggerDiff now s) = originalModelDisposables s /\
  disposables (triggerDiff now s) = disposables s /\
  _onDidChange (triggerDiff now s) = _onDidChange s /\
  _changes (triggerDiff now s) = _changes s.
Proof. unfold triggerDiff. by destruct (diffDelayer s). Qed.

Lemma onDidAddRepository_fold now repos s :
  let s' := foldl (fun s r => onDidAddRepository now r s) s repos in
  _originalModel s' = _originalModel s /\
  _editorModel s' = _editorModel s /\
  repositoryDisposables s' = repositoryDisposables s ++ map repository_store repos /\
  originalModelDisposables s' = originalModelDisposables s /\
  disposables s' = disposables s /\
  _onDidChange s' = _onDidChange s /\
  _changes s' = _changes s.
Proof.
  revert s. induction repos as [|r repos IH]; intros s; cbn.
  - rewrite app_nil_r. by repeat split.
  - destruct (IH (onDidAddRepository now r s)) as (H1 & H2 & H3 & H4 & H5 & H6 & H7).
    cbn zeta in *. rewrite H1, H2, H3, H4, H5, H6, H7.
    unfold onDidAddRepository.
    destruct (triggerDiff_frame now
                (set_repositoryDisposables
                   (repositoryDisposables s ++
                      [[ProviderChanged (repoId r); RepositoryRemoved (repoId r)]]) s))
      as (G1 & G2 & G3 & G4 & G5 & G6 & G7).
    rewrite G1, G2, G3, G4, G5, G6, G7. cbn.
    rewrite <- app_assoc. by repeat split.
Qed.

Lemma constructor_fields editorModel repos now :
  let s := constructor editorModel repos now in
  _editorModel s = Some editorModel /\ _originalModel s = None /\
  _changes s = [] /\ _onDidChange s = [] /\
  disposables s = [EditorContentChanged; RepositoryAdded] /\
  repositoryDisposables s = map repository_store repos /\
  originalModelDisposables s = [].
Proof.
  cbn zeta. unfold constructor.
  set (s2 := addDispose RepositoryAdded (addDispose EditorContentChanged _)).
  destruct (onDidAddRepository_fold now repos s2) as (H1 & H2 & H3 & H4 & H5 & H6 & H7).
  cbn zeta in *.
  set (s3 := foldl _ s2 repos) in *.
  destruct (triggerDiff_frame now s3) as (G1 & G2 & G3 & G4 & G5 & G6 & G7).
  cbn [set_originalModelDisposables _editorModel _originalModel _changes
         _onDidChange disposables repositoryDisposables originalModelDisposables].
  rewrite G1, G2, G3, G5, G6, G7, H1, H2, H3, H5, H6, H7. by repeat split.
Qed.

Lemma constructor_gate editorModel repos now :
  exists g, diffDelayer (constructor editorModel repos now) = Some g /\
            phase g = Scheduled (now + DIFF_DELAY) /\ runs g = 0%nat.
Proof.
  destruct (constructor_schedules_one_run editorModel repos now) as [Hphase Hone].
  unfold gate_phase in Hphase. unfold runs_started, timer_elapsed in Hone.
  destruct (diffDelayer (constructor editorModel repos now)) as [g|] eqn:Eg; [|done].
  cbn in Hphase, Hone. injection Hphase as Hphase.
  exists g. split; [done|]. split; [done|].
  unfold timer in Hone. rewrite Hphase, Z.leb_refl in Hone. cbn in Hone. lia.
Qed.

Lemma constructor_marker editorModel repos now :
  _originalURIPromise (constructor editorModel repos now) = None.
Proof.
  unfold constructor.
  set (s2 := addDispose RepositoryAdded (addDispose EditorContentChanged _)).
  assert (_originalURIPromise s2 = None) as H2 by done.
  assert (forall now s, _originalURIPromise (triggerDiff now s) = _originalURIPromise s)
    as Htrig.
  { intros n s. unfold triggerDiff. by destruct (diffDelayer s). }
  assert (forall s, _originalURIPromise s = None ->
            _originalURIPromise (foldl (fun s r => onDidAddRepository now r s) s repos)
            = None) as Hfold.
  { induction repos as [|r repos IH]; intros s Hs; cbn; [done|].
    apply IH. unfold onDidAddRepository. by rewrite Htrig. }
  cbn. rewrite Htrig. by apply Hfold.
Qed.

(** X14: a new tracker is attached to the editor model with an empty
    ChangeSet and nothing fired; it holds the two editor and registry
    subscriptions and one store per known repository, in order; and
    however many repositories there are, its gate is scheduled once, for
    the end of the delay, with no run started. *)
Theorem constructor_registers editorModel repos now :
  let s := constructor editorModel repos now in
  _editorModel s = Some editorModel /\ _originalModel s = None /\
  _changes s = [] /\ _onDidChange s = [] /\
  disposables s = [EditorContentChanged; RepositoryAdded] /\
  repositoryDisposables s = map repository_store repos /\
  originalModelDisposables s = [] /\
  length (subscriptions s) = (2 + 2 * length repos)%nat /\
  gate_phase s = Some (Scheduled (now + DIFF_DELAY)) /\
  runs_started s = 0%nat.
Proof.
  cbn zeta.
  destruct (constructor_fields editorModel repos now) as (H1 & H2 & H3 & H4 & H5 & H6 & H7).
  destruct (constructor_gate editorModel repos now) as (g & Hg & Hph & Hruns).
  cbn zeta in *.
  do 7 (split; [done|]). split; [|split].
  - unfold subscriptions. rewrite H5, H6, H7. cbn. f_equal. f_equal.
    clear. induction repos as [|r repos IH]; cbn; [done|]. lia.
  - unfold gate_phase. rewrite Hg. cbn. by rewrite Hph.
  - unfold runs_started. by rewrite Hg.
Qed.
End ConstructorFacts.

(** * The compare service over any sequence of operations *)

Section CompareTraces.
Import Compare.

Lemma opens_executeCommand key c s :
  opens key (executeCommand c s)
  = (opens key s + if decide (c = OPEN_RESOURCE key) then 1 else 0)%nat.
Proof.
  unfold opens, executeCommand. cbn. rewrite filter_app, length_app. cbn.
  by destruct (decide (c = OPEN_RESOURCE key)).
Qed.

Lemma closes_executeCommand key c s :
  closes key (executeCommand c s)
  = (closes key s + if decide (c = CLOSE_ALL key) then 1 else 0)%nat.
Proof.
  unfold closes, executeCommand. cbn. rewrite filter_app, length_app. cbn.
  by destruct (decide (c = CLOSE_ALL key)).
Qed.

Lemma balanced_compare key original modified name s :
  registry_wf s -> balanced key s ->
  balanced key (compare original modified name s).2.
Proof.
  intros Hwf Hb. unfold balanced in *.
  destruct (comparing s !! compareUri original modified name) as [h0|] eqn:E.
  - rewrite (compare_existing _ _ _ _ _ E). cbn [snd].
    rewrite opens_executeCommand, closes_executeCommand.
    rewrite decide_False by done.
    change (queued key (executeCommand _ s)) with (queued key s).
    change (pending_entry key (executeCommand _ s)) with (pending_entry key s).
    lia.
  - rewrite (compare_fresh _ _ _ _ E). cbn [snd].
    rewrite opens_executeCommand, closes_executeCommand.
    rewrite decide_False by done.
    set (k0 := compareUri original modified name) in *.
    set (s1 := comparing_set k0 _ _).
    change (queued key (executeCommand _ s1)) with (queued key s).
    change (pending_entry key (executeCommand _ s1)) with (pending_entry key s1).
    change (opens key s1) with (opens key s).
    change (closes key s1) with (closes key s).
    destruct (decide (k0 = key)) as [Heq|Hne].
    + rewrite decide_True by congruence.
      assert (pending_entry key s = 0%nat) as Hp0.
      { unfold pending_entry. by rewrite <- Heq, E. }
      assert (pending_entry key s1 <= 1)%nat.
      { unfold pending_entry. repeat case_match; lia. }
      lia.
    + rewrite decide_False by congruence.
      assert (pending_entry key s1 = pending_entry key s) as ->; [|lia].
      unfold pending_entry, s1. cbn. rewrite lookup_insert_ne by done.
      destruct (comparing s !! key) as [h|] eqn:Ek; [|done].
      destruct (Hwf _ _ Ek) as (d & Hd & _).
      by rewrite lookup_app_l by (eapply lookup_lt_Some; eauto).
Qed.

Lemma queued_app (key : string) (l : list string) (v : string) :
  length (filter (λ k, k = key) (l ++ [v]))
  = (length (filter (λ k, k = key) l) + if decide (v = key) then 1 else 0)%nat.
Proof.
  rewrite filter_app, length_app. cbn. by destruct (decide (v = key)).
Qed.

Lemma balanced_diff_command key outcome resource s :
  registry_wf s -> balanced key s ->
  balanced key (diff_command outcome resource s).
Proof.
  intros Hwf Hb. unfold diff_command.
  destruct resource as [uri|]; [|done].
  destruct (comparing s !! uri) as [h|] eqn:Eu; [|done].
  destruct (Hwf _ _ Eu) as (d & Hd & Hr & _).
  unfold resolve. rewrite Hd. destruct (settled d) eqn:Es; [done|].
  unfold balanced in *.
  set (s1 := mkService _ _ _ _).
  change (opens key s1) with (opens key s).
  change (closes key s1) with (closes key s).
  assert (queued key s1 = (queued key s + if decide (uri = key) then 1 else 0)%nat) as ->.
  { unfold queued, s1. cbn. rewrite Hr. apply queued_app. }
  destruct (decide (uri = key)) as [->|Hne].
  - assert (pending_entry key s = 1%nat) as Hp1.
    { unfold pending_entry. by rewrite Eu, Hd, Es. }
    assert (pending_entry key s1 = 0%nat) as ->; [|lia].
    unfold pending_entry, s1. cbn. rewrite Eu.
    by rewrite list_lookup_insert_eq by (eapply lookup_lt_Some; eauto).
  - assert (pending_entry key s1 = pending_entry key s) as ->; [|lia].
    unfold pending_entry, s1. cbn.
    destruct (comparing s !! key) as [hk|] eqn:Ek; [|done].
    assert (h <> hk) as Hh.
    { intros ->. destruct (Hwf _ _ Ek) as (d' & Hd' & Hr' & _). congruence. }
    by rewrite list_lookup_insert_ne.
Qed.

Lemma count_map_CLOSE_ALL key keys :
  length (filter (λ c, c = CLOSE_ALL key) (map CLOSE_ALL keys))
  = length (filter (λ k, k = key) keys).
Proof.
  induction keys as [|k keys IH]; [done|]. cbn [map].
  rewrite !filter_cons.
  destruct (decide (k = key)) as [->|Hne].
  - rewrite decide_True by done. cbn [length]. by rewrite IH.
  - rewrite decide_False by congruence. exact IH.
Qed.

Lemma count_map_CLOSE_ALL_open key keys :
  length (filter (λ c, c = OPEN_RESOURCE key) (map CLOSE_ALL keys)) = 0%nat.
Proof.
  induction keys as [|k keys IH]; [done|]. cbn [map].
  rewrite filter_cons. by rewrite decide_False by done.
Qed.

Lemma balanced_run_microtasks key s :
  balanced key s -> balanced key (run_microtasks s).
Proof.
  unfold balanced. intros Hb.
  assert (closes key (run_microtasks s) = (closes key s + queued key s)%nat) as ->.
  { unfold closes. rewrite run_microtasks_executed, filter_app, length_app.
    by rewrite count_map_CLOSE_ALL. }
  assert (opens key (run_microtasks s) = opens key s) as ->.
  { unfold opens. rewrite run_microtasks_executed, filter_app, length_app.
    rewrite count_map_CLOSE_ALL_open. lia. }
  assert (queued key (run_microtasks s) = 0%nat) as ->.
  { unfold queued. by rewrite run_microtasks_queue. }
  assert (pending_entry key (run_microtasks s) <= pending_entry key s)%nat; [|lia].
  unfold pending_entry. rewrite run_microtasks_comparing, run_microtasks_deferreds.
  case_bool_decide; [lia|]. done.
Qed.

Lemma run_ops_invariant ops s key :
  registry_wf s -> balanced key s ->
  registry_wf (run_ops ops s) /\ balanced key (run_ops ops s).
Proof.
  revert s. induction ops as [|op ops IH]; intros s Hwf Hb; [done|].
  cbn. apply IH; destruct op; cbn.
  - by apply registry_wf_compare.
  - by apply registry_wf_diff_command.
  - by apply registry_wf_run_microtasks.
  - by apply balanced_compare.
  - by apply balanced_diff_command.
  - by apply balanced_run_microtasks.
Qed.

(** X4: after any sequence of [compare] calls, accept and revert commands
    and reaction runs on a fresh service, the registry invariant holds, no
    two identifiers share a deferred, and for every identifier the close
    command was issued at most as often as the open command. *)
Theorem closes_never_exceed_opens ops key :
  let s := run_ops ops empty_service in
  registry_wf s /\
  (forall key1 key2 h,
     comparing s !! key1 = Some h -> comparing s !! key2 = Some h -> key1 = key2) /\
  (closes key s <= opens key s)%nat.
Proof.
  cbn zeta.
  destruct (run_ops_invariant ops empty_service key registry_wf_empty) as [Hwf Hb].
  { unfold balanced, pending_entry, closes, queued, opens. cbn.
    rewrite lookup_empty. cbn. lia. }
  split; [exact Hwf|]. split.
  - intros key1 key2 h. by apply registry_handles_distinct.
  - unfold balanced in Hb. lia.
Qed.
End CompareTraces.

(** * The tracker over any sequence of operations *)

Section TrackerTraces.
Import DirtyDiff.
Variable compareChanges : IChange -> IChange -> Z.

Ltac run_cases :=
  unfold recompute, diff, getOriginalURIPromise, onOriginalURI, onOriginalResource,
    onModelReference, onChanges, clear_originalURIPromise, bind, finally, await;
  repeat (case_match; simplify_eq/=); cbn.

Lemma recompute_fired_nonempty w detach s :
  Forall (fun delta => delta <> []) (_onDidChange s) ->
  Forall (fun delta => delta <> []) (_onDidChange (recompute compareChanges w detach s).2).
Proof.
  intros Hall. run_cases; try done;
    (apply Forall_app; split;
     [ done
     | constructor;
       [ intros E;
         match goal with
         | H : (0 <? length _)%nat = true |- _ => rewrite E in H; discriminate H
         end
       | done ] ]).
Qed.

Lemma recompute_on_detached w detach s :
  _editorModel s = None -> _originalURIPromise s = None ->
  (recompute compareChanges w detach s).2 = s \/
  (recompute compareChanges w detach s).2 = dispose s.
Proof.
  intros Hem Hp.
  assert (getOriginalResource w s = Fulfilled None) as Hv.
  { unfold getOriginalResource. by rewrite Hem. }
  assert (clear_originalURIPromise s = s) as Hclear.
  { unfold clear_originalURIPromise, set_originalURIPromise. destruct s. cbn in *. by subst. }
  unfold recompute, diff, bind.
  rewrite (getOriginalURIPromise_start _ _ _ _ Hp Hv). unfold finally.
  case_bool_decide.
  - rewrite onOriginalResource_detached by done. cbv beta iota.
    assert (clear_originalURIPromise (dispose s) = dispose s) as ->.
    { unfold clear_originalURIPromise, set_originalURIPromise, dispose. cbn.
      by rewrite Hp. }
    rewrite onOriginalURI_detached by done.
    rewrite onChanges_detached by (by left). by right.
  - rewrite onOriginalResource_detached by done. cbv beta iota. rewrite Hclear.
    rewrite onOriginalURI_detached by done.
    rewrite onChanges_detached by (by left). by left.
Qed.

Lemma gate_op_inv (f : ThrottledDelayer -> ThrottledDelayer) s :
  tracker_inv s ->
  tracker_inv (match diffDelayer s with
               | None => s
               | Some g => set_diffDelayer (Some (f g)) s
               end).
Proof.
  intros Hinv. destruct (diffDelayer s) as [g|] eqn:Eg; [|exact Hinv].
  destruct Hinv as (Hp & Hrefs & Hfired & Hgate & Hnone).
  split; [done|]. split; [done|]. split; [done|]. split.
  - cbn. split; [|done]. intros Hem. apply Hgate in Hem. congruence.
  - exact Hnone.
Qed.

Lemma tracker_inv_dispose s : tracker_inv s -> tracker_inv (dispose s).
Proof.
  intros (Hp & Hrefs & Hfired & Hgate & Hnone).
  split; [done|]. split; [by left|]. by repeat split.
Qed.

Lemma tracker_inv_recompute w detach s :
  tracker_inv s -> tracker_inv (recompute compareChanges w detach s).2.
Proof.
  intros Hinv. pose proof Hinv as (Hp & Hrefs & Hfired & Hgate & Hnone).
  split; [by apply recompute_clears_marker|].
  split; [by apply recompute_keeps_refs|].
  split; [by apply recompute_fired_nonempty|].
  destruct (_editorModel s) as [em|] eqn:Eem.
  - destruct (recompute_frame_cases compareChanges w detach s)
      as [(H1 & H2 & _) | (_ & H1 & H2 & H3 & H4)]; cbn zeta in *.
    + rewrite H1, H2, Eem. split; [exact Hgate | done].
    + rewrite H1, H3. by split.
  - destruct (recompute_on_detached w detach s Eem Hp) as [-> | ->].
    + rewrite Eem. split; [exact Hgate | done].
    + by destruct (tracker_inv_dispose s Hinv) as (_ & _ & _ & ? & ?).
Qed.

Lemma tracker_inv_step s op :
  tracker_inv s -> tracker_inv (run_tracker_op compareChanges s op).
Proof.
  intros Hinv. destruct op as [w detach|now|now| |]; cbn.
  - by apply tracker_inv_recompute.
  - by apply gate_op_inv.
  - by apply gate_op_inv.
  - by apply gate_op_inv.
  - by apply tracker_inv_dispose.
Qed.

Lemma tracker_inv_constructor editorModel repos now :
  tracker_inv (constructor editorModel repos now).
Proof.
  destruct (constructor_fields editorModel repos now) as (H1 & H2 & H3 & H4 & H5 & H6 & H7).
  destruct (constructor_gate editorModel repos now) as (g & Hg & _).
  cbn zeta in *. unfold tracker_inv, original_refs_ok.
  rewrite H1, H4, H7, Hg. split; [apply constructor_marker|].
  split; [by left|]. split; [constructor|]. by split.
Qed.

(** X15: whatever happens to a tracker after its construction (runs against
    any collaborators, with [dispose()] called during any of their calls,
    triggers, timers, and [dispose()] itself), no resolution stays marked in
    flight, at most one original model reference is held, no empty delta is
    ever fired, and a tracker that has lost its editor model has no gate, no
    original model and no subscription left. *)
Theorem tracker_inv_reachable editorModel repos now ops :
  tracker_inv (run_tracker_ops compareChanges ops (constructor editorModel repos now)).
Proof.
  unfold run_tracker_ops.
  generalize (tracker_inv_constructor editorModel repos now).
  generalize (constructor editorModel repos now).
  induction ops as [|op ops IH]; intros s Hinv; cbn; [done|].
  apply IH. by apply tracker_inv_step.
Qed.
End TrackerTraces.
